(** * Verification of the e-mail parser ([src/email_agent/email_parser.py])

    A shallow embedding of [EmailParser]: header normalisation, recursive
    body extraction over the MIME part tree, transport decoding (URL-safe
    base64 followed by UTF-8 with [errors='ignore']), metadata derivation
    and the sender-name helper.

    Conventions of the model
    - a Python [str] is the list of its code points ([pystr]); a [bytes]
      object is the list of its octets, each below 256;
    - the dictionaries of the Gmail message are records whose fields are
      optional (a key may be absent); the values that are present have the
      types of the Gmail schema, as in the type hints of the source;
    - exceptions and the [print] diagnostics are explicit: a computation
      of type [Py A] yields an [outcome] (a value or a raised exception)
      together with the lines it printed; [print] writes its line to
      [sys.stdout], which takes it or raises ([Stdout]): a stream that is
      open and encodes a superset of ASCII takes every ASCII line, and a
      UTF-8 stream refuses a line that holds a lone surrogate;
    - the parser holds one [html2text] converter, made once in [__init__]
      and used for every leaf of every message: its state is threaded
      through the methods that can reach it ([Method]);
    - [html2text], [email.utils.parsedate_to_datetime], [datetime.isoformat]
      and the Unicode part of [str.lower] are libraries outside the
      repository: they are fields of the class [Externals], and every
      theorem holds whatever they compute or raise;
    - [base64] and the UTF-8 codec are modelled after CPython 3.11;
    - the stack of the interpreter is a resource outside the model: the
      recursion of [_extract_from_parts] is followed to any depth. *)

From Stdlib Require Import NArith ZArith Lia String Ascii List Bool.
From stdpp Require Import base option list gmap.
Import ListNotations.

Local Open Scope N_scope.

(** ** Python strings and bytes *)

Abbreviation pystr := (list N).
Abbreviation pybytes := (list N).

(** An ASCII literal of the source as a [pystr]. *)
Fixpoint py (s : string) : pystr :=
  match s with
  | EmptyString => []
  | String a s' => N_of_ascii a :: py s'
  end.

(** Truthiness of a [str]: only the empty string is falsy. *)
Definition truthy (s : pystr) : bool :=
  match s with
  | [] => false
  | _ :: _ => true
  end.

(** [str.isspace] on one code point; also the class [\s] of [re] on [str]
    patterns (the white-space code points of the Unicode database). *)
Definition isspace (c : N) : bool :=
  ((0x09 <=? c) && (c <=? 0x0D)) || ((0x1C <=? c) && (c <=? 0x20))
  || (c =? 0x85) || (c =? 0xA0) || (c =? 0x1680)
  || ((0x2000 <=? c) && (c <=? 0x200A))
  || (c =? 0x2028) || (c =? 0x2029) || (c =? 0x202F) || (c =? 0x205F)
  || (c =? 0x3000).

Definition pystr_eqb (a b : pystr) : bool := bool_decide (a = b).

(** [sep.join(l)] *)
Fixpoint join (sep : pystr) (l : list pystr) : pystr :=
  match l with
  | [] => []
  | x :: l' =>
      match l' with
      | [] => x
      | _ :: _ => x ++ sep ++ join sep l'
      end
  end.

(** [s.split()] with no argument: the maximal runs of characters that are
    not white space. [cur] is the token being read. *)
Fixpoint split_from (cur : pystr) (s : pystr) : list pystr :=
  match s with
  | [] => if truthy cur then [cur] else []
  | c :: s' =>
      if isspace c
      then (if truthy cur then cur :: split_from [] s' else split_from [] s')
      else split_from (cur ++ [c]) s'
  end.

Definition split (s : pystr) : list pystr := split_from [] s.

(** [s.strip(QUOTE)], where QUOTE is the double-quote character: the quote
    characters at both ends are removed. *)
Definition QUOTE : N := 34.

Fixpoint lstrip_quote (s : pystr) : pystr :=
  match s with
  | c :: s' => if c =? QUOTE then lstrip_quote s' else s
  | [] => []
  end.

Definition rstrip_quote (s : pystr) : pystr := rev (lstrip_quote (rev s)).

Definition strip_quote (s : pystr) : pystr := rstrip_quote (lstrip_quote s).

(** [str.lower] on an ASCII string maps [A-Z] to [a-z]. *)
Definition ascii_lower (c : N) : N :=
  if (65 <=? c) && (c <=? 90) then c + 32 else c.

Definition is_ascii (c : N) : bool := c <? 128.

(** ** Exceptions and diagnostics *)

Inductive exn : Type :=
| NonAsciiValueError
    (* ValueError: string argument should contain only ASCII characters *)
| InvalidLength (n : N)
    (* binascii.Error: number of data characters (n) cannot be 1 more
       than a multiple of 4 *)
| IncorrectPadding
    (* binascii.Error: Incorrect padding *)
| LibraryError (msg : pystr).
    (* an Exception raised outside the module (html2text, email.utils, the
       Gmail client, sys.stdout); msg is str(e) *)

(** [str(n)] for a number. *)
Fixpoint digits (d : Decimal.uint) : pystr :=
  match d with
  | Decimal.Nil => []
  | Decimal.D0 d' => 48 :: digits d'
  | Decimal.D1 d' => 49 :: digits d'
  | Decimal.D2 d' => 50 :: digits d'
  | Decimal.D3 d' => 51 :: digits d'
  | Decimal.D4 d' => 52 :: digits d'
  | Decimal.D5 d' => 53 :: digits d'
  | Decimal.D6 d' => 54 :: digits d'
  | Decimal.D7 d' => 55 :: digits d'
  | Decimal.D8 d' => 56 :: digits d'
  | Decimal.D9 d' => 57 :: digits d'
  end.

Definition decimal (n : N) : pystr := digits (N.to_uint n).

(** [str(e)], what an f-string writes for [{e}]. *)
Definition exn_str (e : exn) : pystr :=
  match e with
  | NonAsciiValueError =>
      py "string argument should contain only ASCII characters"
  | InvalidLength n =>
      py "Invalid base64-encoded string: number of data characters ("
      ++ decimal n ++ py ") cannot be 1 more than a multiple of 4"
  | IncorrectPadding => py "Incorrect padding"
  | LibraryError msg => msg
  end.

Inductive outcome (A : Type) : Type :=
| Returns (a : A)
| Raises (e : exn).
Arguments Returns {A} a.
Arguments Raises {A} e.

(** One [print] call of the source. *)
Inductive diagnostic : Type :=
| ErrorDecodingBody (e : exn)                (* "Error decoding body: {e}" *)
| ErrorCleaningHTML (e : exn)                (* "Error cleaning HTML: {e}" *)
| ErrorParsingDate (date_str : pystr) (e : exn).
                                   (* "Error parsing date '{date_str}': {e}" *)

(** The line that the call writes. *)
Definition line_of (d : diagnostic) : pystr :=
  match d with
  | ErrorDecodingBody e => py "Error decoding body: " ++ exn_str e
  | ErrorCleaningHTML e => py "Error cleaning HTML: " ++ exn_str e
  | ErrorParsingDate date_str e =>
      py "Error parsing date '" ++ date_str ++ py "': " ++ exn_str e
  end.

(** [sys.stdout], as far as [print] needs it: [write] takes a line or
    raises, as the encoder of the stream decides. The stream is open and
    its encoding extends ASCII, so a line of ASCII characters is taken. *)
Class Stdout : Type := {
  stdout_write : pystr -> outcome unit;
  stdout_ascii :
    forall text, forallb is_ascii text = true -> stdout_write text = Returns tt
}.

Definition Py (A : Type) : Type := outcome A * list diagnostic.

Definition ret {A} (a : A) : Py A := (Returns a, []).

Definition lift {A} (o : outcome A) : Py A := (o, []).

(** [print(line)]: the line is encoded and written, then the newline. A
    line that the stream refuses is not written at all. *)
Definition print `{Out : Stdout} (d : diagnostic) : Py unit :=
  match stdout_write (line_of d) with
  | Returns _ => (Returns tt, [d])
  | Raises e => (Raises e, [])
  end.

Definition bind {A B} (m : Py A) (k : A -> Py B) : Py B :=
  match m with
  | (Returns a, out) => let '(r, out') := k a in (r, out ++ out')
  | (Raises e, out) => (Raises e, out)
  end.

(** [try: m  except Exception as e: handler e] *)
Definition try_except {A} (m : Py A) (handler : exn -> Py A) : Py A :=
  match m with
  | (Returns a, out) => (Returns a, out)
  | (Raises e, out) => let '(r, out') := handler e in (r, out ++ out')
  end.

Notation "'let*' x ':=' m 'in' k" := (bind m (fun x => k))
  (at level 10, x name, m at level 100, k at level 200).
Notation "m ';;' k" := (bind m (fun _ => k))
  (at level 100, k at level 200, right associativity).

Definition result {A} (m : Py A) : outcome A := fst m.

(** A method of an object that holds a mutable part of type [S]: it is
    run from a state of that part and leaves one, also when it raises. *)
Definition Method (S A : Type) : Type := S -> Py A * S.

Definition mret {S A} (a : A) : Method S A := fun s => (ret a, s).

(** A computation that does not touch the state. *)
Definition keep {S A} (m : Py A) : Method S A := fun s => (m, s).

Definition mbind {S A B} (m : Method S A) (k : A -> Method S B) : Method S B :=
  fun s =>
    match m s with
    | ((Returns a, out), s') =>
        let '((r, out'), s'') := k a s' in ((r, out ++ out'), s'')
    | ((Raises e, out), s') => ((Raises e, out), s')
    end.

Notation "'let!' x ':=' m 'in' k" := (mbind m (fun x => k))
  (at level 10, x name, m at level 100, k at level 200).

(** [for x in l: t = body x t] *)
Definition for_loop {S A T} (body : A -> T -> Method S T)
    : list A -> T -> Method S T :=
  fix go (l : list A) (t : T) : Method S T :=
    match l with
    | [] => mret t
    | x :: l' => let! t' := body x t in go l' t'
    end.

(** ** The transport encoding: [base64.urlsafe_b64decode]

    [urlsafe_b64decode(s)] of the standard library encodes a [str] argument
    as ASCII (a [ValueError] when it cannot), maps [-] to [+] and [_] to [/],
    and calls [binascii.a2b_base64] in its default, non-strict mode. The
    loop below follows that decoder: characters outside the alphabet are
    skipped, a pad character ends the input once the current quad holds at
    least two sextets and is complete with the pads seen, and data that ends
    inside a quad raises [binascii.Error]. *)

Definition BASE64_PAD : N := 61.

Definition table_a2b_base64 (c : N) : option N :=
  if (65 <=? c) && (c <=? 90) then Some (c - 65)
  else if (97 <=? c) && (c <=? 122) then Some (c - 71)
  else if (48 <=? c) && (c <=? 57) then Some (c + 4)
  else if c =? 43 then Some 62
  else if c =? 47 then Some 63
  else None.

Definition urlsafe_decode_translation (c : N) : N :=
  if c =? 45 then 43 else if c =? 95 then 47 else c.

Fixpoint a2b_loop (ascii_data : pybytes) (quad_pos : nat) (leftchar pads : N)
    (bin_data : pybytes) : outcome pybytes :=
  match ascii_data with
  | [] =>
      match quad_pos with
      | O => Returns bin_data
      | 1%nat => Raises (InvalidLength (N.of_nat (length bin_data) / 3 * 4 + 1))
      | _ => Raises IncorrectPadding
      end
  | this_ch :: rest =>
      if this_ch =? BASE64_PAD then
        if (2 <=? quad_pos)%nat then
          if 4 <=? N.of_nat quad_pos + (pads + 1)
          then Returns bin_data
          else a2b_loop rest quad_pos leftchar (pads + 1) bin_data
        else a2b_loop rest quad_pos leftchar pads bin_data
      else
        match table_a2b_base64 this_ch with
        | None => a2b_loop rest quad_pos leftchar pads bin_data
        | Some v =>
            match quad_pos with
            | O => a2b_loop rest 1 v 0 bin_data
            | 1%nat =>
                a2b_loop rest 2 (N.land v 0x0f) 0
                  (bin_data ++ [N.lor (N.shiftl leftchar 2) (N.shiftr v 4)])
            | 2%nat =>
                a2b_loop rest 3 (N.land v 0x03) 0
                  (bin_data ++ [N.lor (N.shiftl leftchar 4) (N.shiftr v 2)])
            | _ =>
                a2b_loop rest 0 0 0
                  (bin_data ++ [N.lor (N.shiftl leftchar 6) v])
            end
        end
  end.

Definition a2b_base64 (data : pybytes) : outcome pybytes :=
  a2b_loop data 0 0 0 [].

Definition urlsafe_b64decode (s : pystr) : outcome pybytes :=
  if forallb is_ascii s
  then a2b_base64 (map urlsafe_decode_translation s)
  else Raises NonAsciiValueError.

(** [base64.urlsafe_b64encode(b).decode('ascii')], the encoding that the
    decoder is meant to invert: three octets give four characters of the
    alphabet [A-Z a-z 0-9 - _], the last group is padded with [=]. *)
Definition table_b2a_urlsafe (v : N) : N :=
  if v <? 26 then v + 65
  else if v <? 52 then v + 71
  else if v <? 62 then v - 4
  else if v =? 62 then 45
  else 95.

Fixpoint urlsafe_b64encode (b : pybytes) : pystr :=
  match b with
  | [] => []
  | [b0] =>
      [table_b2a_urlsafe (N.shiftr b0 2);
       table_b2a_urlsafe (N.shiftl (N.land b0 0x03) 4);
       BASE64_PAD; BASE64_PAD]
  | [b0; b1] =>
      [table_b2a_urlsafe (N.shiftr b0 2);
       table_b2a_urlsafe (N.lor (N.shiftl (N.land b0 0x03) 4) (N.shiftr b1 4));
       table_b2a_urlsafe (N.shiftl (N.land b1 0x0f) 2);
       BASE64_PAD]
  | b0 :: b1 :: b2 :: rest =>
      [table_b2a_urlsafe (N.shiftr b0 2);
       table_b2a_urlsafe (N.lor (N.shiftl (N.land b0 0x03) 4) (N.shiftr b1 4));
       table_b2a_urlsafe (N.lor (N.shiftl (N.land b1 0x0f) 2) (N.shiftr b2 6));
       table_b2a_urlsafe (N.land b2 0x3f)]
      ++ urlsafe_b64encode rest
  end.

(** ** UTF-8

    [bytes.decode('utf-8', errors='ignore')]: well-formed sequences
    (Unicode table 3-7: no overlong form, no surrogate, nothing above
    U+10FFFF) are decoded, every other octet is ignored. The decoder reads
    one octet at a time; [Pending need acc lo hi] says that [need] more
    continuation octets are expected, the next one within [lo..hi]. An octet
    that ends a sequence early is looked at again as a first octet, which
    gives the same text as skipping the maximal ill-formed prefix does,
    since continuation octets are never first octets. *)

Inductive utf8_state : Type :=
| Idle
| Pending (need : nat) (acc lo hi : N).

Inductive utf8_step : Type :=
| Emit (c : N)
| Goto (st : utf8_state).

Definition utf8_first (b : N) : utf8_step :=
  if b <? 0x80 then Emit b
  else if (0xC2 <=? b) && (b <=? 0xDF) then Goto (Pending 1 (b - 0xC0) 0x80 0xBF)
  else if b =? 0xE0 then Goto (Pending 2 0 0xA0 0xBF)
  else if b =? 0xED then Goto (Pending 2 13 0x80 0x9F)
  else if (0xE1 <=? b) && (b <=? 0xEF) then Goto (Pending 2 (b - 0xE0) 0x80 0xBF)
  else if b =? 0xF0 then Goto (Pending 3 0 0x90 0xBF)
  else if (0xF1 <=? b) && (b <=? 0xF3) then Goto (Pending 3 (b - 0xF0) 0x80 0xBF)
  else if b =? 0xF4 then Goto (Pending 3 4 0x80 0x8F)
  else Goto Idle.

Definition utf8_next (st : utf8_state) (b : N) : utf8_step :=
  match st with
  | Idle => utf8_first b
  | Pending need acc lo hi =>
      if (lo <=? b) && (b <=? hi) then
        match need with
        | O | 1%nat => Emit (acc * 64 + (b - 0x80))
        | S n => Goto (Pending n (acc * 64 + (b - 0x80)) 0x80 0xBF)
        end
      else utf8_first b
  end.

Fixpoint utf8_run (st : utf8_state) (data : pybytes) : pystr :=
  match data with
  | [] => []
  | b :: rest =>
      match utf8_next st b with
      | Emit c => c :: utf8_run Idle rest
      | Goto st' => utf8_run st' rest
      end
  end.

Definition utf8_decode_ignore (data : pybytes) : pystr := utf8_run Idle data.

(** [str.encode('utf-8')]: defined on Unicode scalar values; a surrogate
    code point cannot be encoded ([None] stands for [UnicodeEncodeError]). *)
Definition is_scalar (c : N) : bool :=
  (c <? 0xD800) || ((0xE000 <=? c) && (c <? 0x110000)).

Definition utf8_encode_char (c : N) : pybytes :=
  if c <? 0x80 then [c]
  else if c <? 0x800 then [0xC0 + c / 64; 0x80 + c mod 64]
  else if c <? 0x10000 then
    [0xE0 + c / 4096; 0x80 + (c / 64) mod 64; 0x80 + c mod 64]
  else
    [0xF0 + c / 262144; 0x80 + (c / 4096) mod 64; 0x80 + (c / 64) mod 64;
     0x80 + c mod 64].

Fixpoint utf8_encode (t : pystr) : option pybytes :=
  match t with
  | [] => Some []
  | c :: t' =>
      if is_scalar c
      then match utf8_encode t' with
           | Some b => Some (utf8_encode_char c ++ b)
           | None => None
           end
      else None
  end.

(** ** Regular expressions of the source

    The two patterns of the module, each written as the search that the
    backtracking matcher of [re] performs for it. *)

(** [s] starts with [pre]: the rest of [s] after it. *)
Fixpoint strip_prefix (pre s : pystr) : option pystr :=
  match pre, s with
  | [], _ => Some s
  | _ :: _, [] => None
  | a :: pre', c :: s' => if a =? c then strip_prefix pre' s' else None
  end.

Fixpoint take_while (p : N -> bool) (s : pystr) : pystr :=
  match s with
  | c :: s' => if p c then c :: take_while p s' else []
  | [] => []
  end.

(** The negated class of the URL pattern: anything but white space and the
    characters [<], [>], double quote, [{], [}], [|], backslash, [^],
    back-quote, [[] and []]. *)
Definition url_char (c : N) : bool :=
  negb (isspace c
        || (c =? 60) || (c =? 62) || (c =? 34) || (c =? 123) || (c =? 125)
        || (c =? 124) || (c =? 92) || (c =? 94) || (c =? 96) || (c =? 91)
        || (c =? 93)).

(** After the scheme: [://] and then one or more class characters,
    as many as there are. *)
Definition url_tail (s : pystr) : option pystr :=
  match strip_prefix (py "://") s with
  | Some r =>
      match take_while url_char r with
      | [] => None
      | t => Some (py "://" ++ t)
      end
  | None => None
  end.

(** A match of the URL pattern at the start of [s]: [http], an optional
    [s] (tried first), then [url_tail]. *)
Definition match_url (s : pystr) : option pystr :=
  match strip_prefix (py "http") s with
  | Some r =>
      let without_s :=
        match url_tail r with Some t => Some (py "http" ++ t) | None => None end in
      match r with
      | c :: r' =>
          if c =? 115 then
            match url_tail r' with
            | Some t => Some (py "https" ++ t)
            | None => without_s
            end
          else without_s
      | [] => without_s
      end
  | None => None
  end.

(** [re.findall]: the matches from left to right, the search resuming
    where the previous match ended ([skip] characters are still covered
    by it). *)
Fixpoint findall_url (skip : nat) (s : pystr) : list pystr :=
  match s with
  | [] => []
  | _ :: s' =>
      match skip with
      | S k => findall_url k s'
      | O =>
          match match_url s with
          | Some u => u :: findall_url (length u - 1) s'
          | None => findall_url 0 s'
          end
      end
  end.

Definition NEWLINE : N := 10.
Definition LT : N := 60.

(** The tail of the sender pattern: white space, as much as there is, and
    then [<]. Giving back white space cannot help, [<] is not white space. *)
Fixpoint spaces_then_lt (s : pystr) : bool :=
  match s with
  | [] => false
  | c :: s' => if isspace c then spaces_then_lt s' else c =? LT
  end.

(** The lazy group of the sender pattern: [group] has been read, it grows by
    one character that is not a newline each time the tail does not match. *)
Fixpoint sender_group (group rest : pystr) : option pystr :=
  if spaces_then_lt rest then Some group
  else match rest with
       | [] => None
       | c :: rest' =>
           if c =? NEWLINE then None else sender_group (group ++ [c]) rest'
       end.

(** [re.match] of the sender pattern: group 1 of the match, if any. The
    group holds at least one character. *)
Definition match_sender (sender : pystr) : option pystr :=
  match sender with
  | [] => None
  | c :: rest => if c =? NEWLINE then None else sender_group [c] rest
  end.

(** ** The Gmail message *)

Record Header : Type := mkHeader {
  header_name : option pystr;
  header_value : option pystr
}.

Record Body : Type := mkBody {
  body_data : option pystr
}.

#[warnings="-register-all"]
Inductive Part : Type := mkPart {
  part_mimeType : option pystr;
  part_headers : option (list Header);
  part_body : option Body;
  part_parts : option (list Part)
}.

Record Message : Type := mkMessage {
  message_id : option pystr;
  message_threadId : option pystr;
  message_payload : option Part;
  message_snippet : option pystr
}.

(** The empty dictionary, as a payload. *)
Definition empty_part : Part := mkPart None None None None.

Record Metadata : Type := mkMetadata {
  word_count : Z;
  char_count : Z;
  has_attachments : bool;
  url_count : Z;
  estimated_read_time_minutes : Z
}.

(** ** Libraries outside the repository *)

Class Externals : Type := {
  (** [str.lower] on a string that is not ASCII *)
  unicode_lower : pystr -> pystr;
  (** the [HTML2Text] object in [self.html_converter], as it is between
      two calls *)
  converter : Type;
  (** [self.html_converter.handle]: the text or the exception, and the
      object as the call leaves it *)
  handle : converter -> pystr -> outcome pystr * converter;
  datetime : Type;
  parsedate_to_datetime : pystr -> outcome datetime;
  isoformat : datetime -> pystr
}.

(** ** The parser *)

Section EmailParser.

Context `{Out : Stdout} `{Ext : Externals}.

Definition lower (s : pystr) : pystr :=
  if forallb is_ascii s then map ascii_lower s else unicode_lower s.

Definition extract_headers (headers : list Header) : gmap pystr pystr :=
  fold_left
    (fun header_dict header =>
       let name := lower (default [] (header_name header)) in
       let value := default [] (header_value header) in
       <[name := value]> header_dict)
    headers ∅.

Definition decode_body (encoded_body : pystr) : Py pystr :=
  try_except
    (let* decoded_bytes := lift (urlsafe_b64decode encoded_body) in
     ret (utf8_decode_ignore decoded_bytes))
    (fun e => print (ErrorDecodingBody e) ;; ret []).

Definition clean_html (html_content : pystr) : Method converter pystr :=
  fun html_converter =>
    let '(text, html_converter') := handle html_converter html_content in
    (try_except
       (lift text)
       (fun e => print (ErrorCleaningHTML e) ;; ret html_content),
     html_converter').

Definition SEP : pystr := [NEWLINE; NEWLINE].

(** One iteration of the loop of [_extract_from_parts]: [texts] after
    the part has been handled. *)
Fixpoint for_part (part : Part) (texts : list pystr) {struct part}
    : Method converter (list pystr) :=
  match part with
  | mkPart mime _ body (Some sub) =>
      let! inner := for_loop for_part sub [] in
      mret (texts ++ [join SEP (List.filter truthy inner)])
  | mkPart mime _ body None =>
      let mime_type := default [] mime in
      if pystr_eqb mime_type (py "text/plain")
         || pystr_eqb mime_type (py "text/html")
      then
        match body with
        | Some (mkBody (Some body_data)) =>
            let! decoded := keep (decode_body body_data) in
            let! decoded :=
              (if pystr_eqb mime_type (py "text/html")
               then clean_html decoded
               else mret decoded) in
            mret (texts ++ [decoded])
        | _ => mret texts
        end
      else mret texts
  end.

Definition _extract_from_parts (parts : list Part) : Method converter pystr :=
  let! texts := for_loop for_part parts [] in
  mret (join SEP (List.filter truthy texts)).

Definition extract_body (payload : Part) : Method converter pystr :=
  let direct :=
    match part_body payload with
    | Some (mkBody (Some body_data)) =>
        if truthy body_data then Some body_data else None
    | _ => None
    end in
  match direct with
  | Some body_data => keep (decode_body body_data)
  | None =>
      match part_parts payload with
      | Some parts => _extract_from_parts parts
      | None => mret []
      end
  end.

Definition extract_urls (content : pystr) : list pystr :=
  findall_url 0 content.

Definition parse_date (date_str : pystr) : Py (option datetime) :=
  try_except
    (let* d := lift (parsedate_to_datetime date_str) in ret (Some d))
    (fun e => print (ErrorParsingDate date_str e) ;; ret None).

Definition parse_message (message : Message)
    : Method converter (gmap pystr pystr) :=
  let message_id := default [] (message_id message) in
  let thread_id := default [] (message_threadId message) in
  let payload := default empty_part (message_payload message) in
  let headers := extract_headers (default [] (part_headers payload)) in
  let! body := extract_body payload in
  let date_str := default [] (headers !! py "date") in
  let! parsed_date :=
    keep (if truthy date_str then parse_date date_str else ret None) in
  mret (list_to_map
         [ (py "id", message_id);
           (py "thread_id", thread_id);
           (py "subject", default (py "No Subject") (headers !! py "subject"));
           (py "sender", default (py "Unknown") (headers !! py "from"));
           (py "to", default [] (headers !! py "to"));
           (py "date", match parsed_date with
                       | Some d => isoformat d
                       | None => []
                       end);
           (py "body", body);
           (py "snippet", default [] (message_snippet message)) ]).

Definition calculate_metadata (parsed_email : gmap pystr pystr) : Metadata :=
  let body := default [] (parsed_email !! py "body") in
  let words := split body in
  {| word_count := Z.of_nat (length words);
     char_count := Z.of_nat (length body);
     has_attachments := false;
     url_count := Z.of_nat (length (extract_urls body));
     estimated_read_time_minutes :=
       Z.max 1 (Z.of_nat (length words) / 200) |}.

Definition extract_sender_name (sender : pystr) : pystr :=
  match match_sender sender with
  | Some group1 => strip_quote group1
  | None => sender
  end.

End EmailParser.

(** ** The sender address

    [re.search] of the address pattern: a [<], a lazy group of one or more
    characters that are not newlines, a [>]. The search tries the start
    positions from left to right. *)

Definition GT : N := 62.
Definition AT : N := 64.

(** The lazy group after its first character: it ends at the first [>],
    and fails at a newline or at the end of the string. *)
Fixpoint email_group (group rest : pystr) : option pystr :=
  match rest with
  | [] => None
  | c :: rest' =>
      if c =? GT then Some group
      else if c =? NEWLINE then None
      else email_group (group ++ [c]) rest'
  end.

(** A match that starts at the first character of [s]. *)
Definition match_email_here (s : pystr) : option pystr :=
  match s with
  | c0 :: c1 :: rest =>
      if (c0 =? LT) && negb (c1 =? NEWLINE) then email_group [c1] rest else None
  | _ => None
  end.

Fixpoint search_email (s : pystr) : option pystr :=
  match match_email_here s with
  | Some group1 => Some group1
  | None =>
      match s with
      | [] => None
      | _ :: s' => search_email s'
      end
  end.

Definition extract_sender_email (sender : pystr) : pystr :=
  match search_email sender with
  | Some group1 => group1
  | None => if existsb (N.eqb AT) sender then sender else []
  end.

(** ** The fetcher ([src/email_agent/email_fetcher.py])

    The Gmail service and the clock are outside the repository: a request
    is a call of [list_execute] or [get_execute], which returns or raises,
    and [datetime.now()] gives [now]. What the fetcher does to the outside
    is kept, in order, beside its outcome: the clock readings, the requests
    sent and the lines printed. *)

Record RequestParams : Type := mkRequestParams {
  req_userId : pystr;
  req_q : pystr;
  req_maxResults : Z;
  req_labelIds : option (list pystr)
}.

(** An entry of the listing: a dictionary with [id] and [threadId]. *)
Record MessageRef : Type := mkMessageRef {
  ref_id : option pystr;
  ref_threadId : option pystr
}.

Record ListResults : Type := mkListResults {
  results_messages : option (list MessageRef)
}.

Inductive fetch_event : Type :=
| Now                                        (* datetime.now() *)
| ListExecute (request_params : RequestParams)
                       (* users().messages().list( **request_params).execute() *)
| GetExecute (message_id : pystr)
                       (* users().messages().get(userId='me', id=...).execute() *)
| ErrorFetchingMessages (e : exn)            (* "Error fetching messages: {e}" *)
| ErrorFetchingMessage (message_id : pystr) (e : exn).
                                  (* "Error fetching message {message_id}: {e}" *)

Definition Io (A : Type) : Type := outcome A * list fetch_event.

Definition io_ret {A} (a : A) : Io A := (Returns a, []).

(** An action on the outside, with the outcome it had. *)
Definition io_call {A} (ev : fetch_event) (o : outcome A) : Io A := (o, [ev]).

(** [print(text)], recorded as [ev]: a line that [sys.stdout] refuses is
    not written, and the exception of the stream is raised. *)
Definition io_print `{Out : Stdout} (ev : fetch_event) (text : pystr) : Io unit :=
  match stdout_write text with
  | Returns _ => (Returns tt, [ev])
  | Raises e => (Raises e, [])
  end.

Definition io_bind {A B} (m : Io A) (k : A -> Io B) : Io B :=
  match m with
  | (Returns a, evs) => let '(r, evs') := k a in (r, evs ++ evs')
  | (Raises e, evs) => (Raises e, evs)
  end.

Definition io_try_except {A} (m : Io A) (handler : exn -> Io A) : Io A :=
  match m with
  | (Returns a, evs) => (Returns a, evs)
  | (Raises e, evs) => let '(r, evs') := handler e in (r, evs ++ evs')
  end.

Notation "'let+' x ':=' m 'in' k" := (io_bind m (fun x => k))
  (at level 10, x name, m at level 100, k at level 200).

Class GmailService : Type := {
  date : Type;
  (** the value of [datetime.now()] *)
  now : date;
  (** [d - timedelta(days=n)], an [OverflowError] when out of range *)
  minus_days : date -> Z -> outcome date;
  (** [d.strftime('%Y/%m/%d')] *)
  strftime_ymd : date -> pystr;
  list_execute : RequestParams -> outcome ListResults;
  get_execute : pystr -> outcome Message
}.

(** The empty dictionary, as a message. *)
Definition empty_message : Message := mkMessage None None None None.

Section EmailFetcher.

Context `{Out : Stdout} `{Svc : GmailService}.

Definition build_date_query (days_back : Z) : Io pystr :=
  let+ t := io_call Now (Returns now) in
  let+ date_filter := (minus_days t days_back, []) in
  let date_string := strftime_ymd date_filter in
  io_ret (py "after:" ++ date_string).

Definition fetch_messages (days_back max_results : Z) (query : option pystr)
    (label_ids : option (list pystr)) : Io (list MessageRef) :=
  let+ query :=
    (match query with
     | None => build_date_query days_back
     | Some query =>
         if (days_back =? 0)%Z then io_ret query
         else
           let+ date_query := build_date_query days_back in
           io_ret (query ++ py " " ++ date_query)
     end) in
  let request_params :=
    {| req_userId := py "me";
       req_q := query;
       req_maxResults := max_results;
       req_labelIds :=
         match label_ids with
         | Some (l :: ls) => Some (l :: ls)
         | _ => None
         end |} in
  io_try_except
    (let+ results :=
       io_call (ListExecute request_params) (list_execute request_params) in
     io_ret (default [] (results_messages results)))
    (fun e =>
       let+ _ :=
         io_print (ErrorFetchingMessages e)
           (py "Error fetching messages: " ++ exn_str e) in
       io_ret []).

Definition fetch_message_by_id (message_id : pystr) : Io Message :=
  io_try_except
    (io_call (GetExecute message_id) (get_execute message_id))
    (fun e =>
       let+ _ :=
         io_print (ErrorFetchingMessage message_id e)
           (py "Error fetching message " ++ message_id ++ py ": " ++ exn_str e) in
       io_ret empty_message).

Definition fetch_unread_messages (days_back max_results : Z)
    : Io (list MessageRef) :=
  fetch_messages days_back max_results (Some (py "is:unread")) None.

Definition fetch_from_sender (sender_email : pystr) (days_back max_results : Z)
    : Io (list MessageRef) :=
  fetch_messages days_back max_results (Some (py "from:" ++ sender_email)) None.

Definition fetch_by_subject (subject : pystr) (days_back max_results : Z)
    : Io (list MessageRef) :=
  fetch_messages days_back max_results (Some (py "subject:" ++ subject)) None.

End EmailFetcher.

(** * Vocabulary of the properties *)

(** A computation that returns: no exception leaves it. *)
Definition returns {A} (m : Py A) : Prop :=
  exists a out, m = (Returns a, out).

(** ** Headers and the assembled record *)

Section Header_vocabulary.

Context `{Ext : Externals}.

(** The key under which a header is stored, and the value stored. *)
Definition normal_name (h : Header) : pystr := lower (default [] (header_name h)).
Definition value_of (h : Header) : pystr := default [] (header_value h).

End Header_vocabulary.

(** ** Words *)

(** The number of white-space delimited tokens, counted as the spec words
    it: one for every character that starts a token, that is, a character
    that is not white space and does not follow such a character. *)
Fixpoint count_tokens (in_token : bool) (s : pystr) : nat :=
  match s with
  | [] => 0
  | c :: s' =>
      if isspace c then count_tokens false s'
      else ((if in_token then 0 else 1) + count_tokens true s')%nat
  end.

Definition whitespace_delimited_tokens (s : pystr) : nat :=
  count_tokens false s.

(** ** A stream and libraries to run the code with *)

(** A UTF-8 stream with the strict error handler: an ASCII line is taken
    at once, and a line that holds a surrogate code point is refused with
    the [UnicodeEncodeError] of the encoder, which names the first run of
    surrogates. *)
Definition is_surrogate (c : N) : bool := (0xD800 <=? c) && (c <=? 0xDFFF).

Definition hex_digit (v : N) : N := if v <? 10 then 48 + v else 87 + v.

Definition surrogates_not_allowed (c start end_ : N) : pystr :=
  if end_ =? start + 1 then
    py "'utf-8' codec can't encode character '\u"
    ++ [ hex_digit (c / 4096); hex_digit ((c / 256) mod 16);
         hex_digit ((c / 16) mod 16); hex_digit (c mod 16) ]
    ++ py "' in position " ++ decimal start ++ py ": surrogates not allowed"
  else
    py "'utf-8' codec can't encode characters in position "
    ++ decimal start ++ py "-" ++ decimal (end_ - 1)
    ++ py ": surrogates not allowed".

Fixpoint first_surrogates (pos : N) (text : pystr) : option (N * N * N) :=
  match text with
  | [] => None
  | c :: rest =>
      if is_surrogate c
      then Some (c, pos, pos + 1 + N.of_nat (length (take_while is_surrogate rest)))
      else first_surrogates (pos + 1) rest
  end.

Definition utf8_strict_write (text : pystr) : outcome unit :=
  if forallb is_ascii text then Returns tt
  else
    match first_surrogates 0 text with
    | None => Returns tt
    | Some (c, start, end_) =>
        Raises (LibraryError (surrogates_not_allowed c start end_))
    end.

Definition utf8_stdout : Stdout :=
  {| stdout_write := utf8_strict_write;
     stdout_ascii := fun text (H : forallb is_ascii text = true) =>
       @eq_ind_r bool true
         (fun b : bool =>
            (if b then Returns tt
             else match first_surrogates 0 text with
                  | None => Returns tt
                  | Some (c, start, end_) =>
                      Raises (LibraryError (surrogates_not_allowed c start end_))
                  end) = Returns tt)
         eq_refl (forallb is_ascii text) H |}.

(** Libraries that do nothing, to run the parser on concrete messages:
    the converter returns the markup as its text and has no state, a date
    is kept as the string it was. *)
Definition transparent_libraries : Externals :=
  {| unicode_lower := fun s => s;
     converter := unit;
     handle := fun html_converter html => (Returns html, html_converter);
     datetime := pystr;
     parsedate_to_datetime := fun date_str => Returns date_str;
     isoformat := fun d => d |}.

(** Libraries that refuse what they are given: the converter raises, and
    the date parser raises the [ValueError] that [email.utils] has for a
    string without a date. *)
Definition refusing_libraries : Externals :=
  {| unicode_lower := fun s => s;
     converter := unit;
     handle := fun html_converter html =>
       (Raises (LibraryError (py "refused")), html_converter);
     datetime := pystr;
     parsedate_to_datetime := fun date_str =>
       Raises (LibraryError
                 (py "Invalid date value or format " ++ [QUOTE] ++ date_str
                  ++ [QUOTE]));
     isoformat := fun d => d |}.

(** A converter that remembers: it counts its calls and writes the count
    before the text. *)
Definition counting_libraries : Externals :=
  {| unicode_lower := fun s => s;
     converter := N;
     handle := fun html_converter html =>
       (Returns (decimal html_converter ++ html), html_converter + 1);
     datetime := pystr;
     parsedate_to_datetime := fun date_str => Returns date_str;
     isoformat := fun d => d |}.

(** ** Parts *)

Section Part_vocabulary.

Context `{Out : Stdout} `{Ext : Externals}.

(** The text that a part stands for in the join, from the state in which
    the converter is when the part is reached: what the part adds to
    [texts], the empty string when it adds nothing. *)
Definition yield (part : Part) : Method converter pystr :=
  let! added := for_part part [] in
  mret (match added with
        | [t] => t
        | _ => []
        end).

(** The elements of a list handled one after the other. *)
Fixpoint in_turn {A B} (f : A -> Method converter B) (l : list A)
    : Method converter (list B) :=
  match l with
  | [] => mret []
  | x :: l' =>
      let! y := f x in
      let! ys := in_turn f l' in
      mret (y :: ys)
  end.

Definition is_text_type (mime : option pystr) : bool :=
  pystr_eqb (default [] mime) (py "text/plain")
  || pystr_eqb (default [] mime) (py "text/html").

End Part_vocabulary.

(** ** Sender *)

(** The text before the first [<], as the spec words it. *)
Definition before_lt (s : pystr) : pystr :=
  take_while (fun c => negb (c =? LT)) s.

(** [s] without the white space that ends it. *)
Fixpoint rstrip_space (s : pystr) : pystr :=
  match s with
  | [] => []
  | c :: s' => if forallb isspace s then [] else c :: rstrip_space s'
  end.

(** The sender holds a bracketed text: a [<], then one or more characters
    that are not newlines, then a [>]. *)
Definition bracketed_text (sender : pystr) : Prop :=
  exists pre c x post,
    sender = pre ++ LT :: c :: x ++ GT :: post /\ (NEWLINE ∉ c :: x).

(** ** Base64 and UTF-8 *)

(** A property of the numbers below [n], checked one by one. *)
Definition all_below (n : nat) (p : N -> bool) : bool :=
  forallb p (map N.of_nat (seq 0 n)).

(** The character of a sextet, after the translation of the decoder. *)
Definition sextet_char (v : N) : N :=
  urlsafe_decode_translation (table_b2a_urlsafe v).

Definition sextet_ok (v : N) : bool :=
  let ch := urlsafe_decode_translation (table_b2a_urlsafe v) in
  negb (ch =? BASE64_PAD) && is_ascii (table_b2a_urlsafe v)
  && match table_a2b_base64 ch with
     | Some w => w =? v
     | None => false
     end.

(** The sextets of one group of the encoder, and what the decoder makes of
    them. *)
Definition sextet0 (b0 : N) : N := N.shiftr b0 2.
Definition sextet1 (b0 b1 : N) : N :=
  N.lor (N.shiftl (N.land b0 0x03) 4) (N.shiftr b1 4).
Definition sextet2 (b1 b2 : N) : N :=
  N.lor (N.shiftl (N.land b1 0x0f) 2) (N.shiftr b2 6).
Definition sextet3 (b2 : N) : N := N.land b2 0x3f.

Definition octet_pair_ok (x y : N) : bool :=
  (sextet0 x <? 64) && (sextet1 x y <? 64) && (sextet2 x y <? 64)
  && (sextet3 x <? 64)
  && (N.lor (N.shiftl (sextet0 x) 2) (N.shiftr (sextet1 x y) 4) =? x)
  && (N.land (sextet1 x y) 0x0f =? N.shiftr y 4)
  && (N.lor (N.shiftl (N.shiftr x 4) 4) (N.shiftr (sextet2 x y) 2) =? x)
  && (N.land (sextet2 x y) 0x03 =? N.shiftr y 6)
  && (N.lor (N.shiftl (N.shiftr x 6) 6) (sextet3 x) =? x).

(** Octets that are the UTF-8 encoding of a text. *)
Definition valid_utf8 (b : pybytes) : Prop := exists t, utf8_encode t = Some b.

(** A character that the decoder skips: ASCII, not the pad, not in the
    alphabet. *)
Definition ignored_char (c : N) : bool :=
  is_ascii c && negb (c =? BASE64_PAD)
  && match table_a2b_base64 (urlsafe_decode_translation c) with
     | None => true
     | Some _ => false
     end.

(** ** URLs *)

(** What [extract_urls] returns, one URL at a time: a scheme, [://], and
    one or more characters of the class. *)
Definition url_shape (u : pystr) : Prop :=
  exists body,
    (u = py "http://" ++ body \/ u = py "https://" ++ body)
    /\ body <> [] /\ forallb url_char body = true.

(** The text made of the URLs, each followed by its gap. *)
Fixpoint weave (urls gaps : list pystr) : pystr :=
  match urls, gaps with
  | u :: urls', g :: gaps' => u ++ g ++ weave urls' gaps'
  | _, _ => []
  end.

(** A gap after a URL is empty or starts with a character that cannot go on
    in a URL. *)
Definition gap_ok (g : pystr) : Prop :=
  match g with
  | [] => True
  | c :: _ => url_char c = false
  end.

(** ** The message and its headers *)

Section Message_vocabulary.

Context `{Out : Stdout} `{Ext : Externals}.

(** The payload that [parse_message] reads, and its header list. *)
Definition payload_of (message : Message) : Part :=
  default empty_part (message_payload message).

Definition headers_of (message : Message) : list Header :=
  default [] (part_headers (payload_of message)).

(** The value of the last header whose lower-cased name is [key]. *)
Definition header_field (headers : list Header) (key : pystr) : option pystr :=
  value_of <$> last (filter (fun h => normal_name h = key) headers).

(** The record that [parse_message] assembles from the message, the
    extracted body and the date. *)
Definition record_of (message : Message) (body date : pystr)
    : gmap pystr pystr :=
  list_to_map
    [ (py "id", default [] (message_id message));
      (py "thread_id", default [] (message_threadId message));
      (py "subject",
       default (py "No Subject")
         (extract_headers (headers_of message) !! py "subject"));
      (py "sender",
       default (py "Unknown") (extract_headers (headers_of message) !! py "from"));
      (py "to", default [] (extract_headers (headers_of message) !! py "to"));
      (py "date", date);
      (py "body", body);
      (py "snippet", default [] (message_snippet message)) ].

(** The string under [date], empty when there is none. *)
Definition date_of (message : Message) : pystr :=
  default [] (extract_headers (headers_of message) !! py "date").

End Message_vocabulary.

(** ** Header names *)

(** An upper-case ASCII letter. *)
Definition is_upper (c : N) : bool := (65 <=? c) && (c <=? 90).

(** ** States of the UTF-8 decoder *)

(** The code points between [lo] and [hi] are all Unicode scalar values. *)
Definition scalar_range (lo hi : N) : Prop :=
  hi < 0xD800 \/ (0xE000 <= lo /\ hi < 0x110000).

(** A state from which only scalar values can come out: the code points
    that the pending sequence can still become are a range of them. *)
Definition utf8_state_ok (st : utf8_state) : Prop :=
  match st with
  | Idle => True
  | Pending need acc lo hi =>
      0x80 <= lo /\ lo <= hi /\ hi <= 0xBF
      /\ match need with
         | 1%nat => scalar_range (acc * 64 + (lo - 0x80)) (acc * 64 + (hi - 0x80))
         | 2%nat =>
             scalar_range ((acc * 64 + (lo - 0x80)) * 64)
                          ((acc * 64 + (hi - 0x80)) * 64 + 63)
         | 3%nat =>
             scalar_range ((acc * 64 + (lo - 0x80)) * 4096)
                          ((acc * 64 + (hi - 0x80)) * 4096 + 4095)
         | _ => False
         end
  end.

Definition utf8_step_ok (step : utf8_step) : Prop :=
  match step with
  | Emit c => is_scalar c = true
  | Goto st => utf8_state_ok st
  end.

(** What the base64 decoder still owes for the characters of the quad it
    is in: three quarters of an octet for each. *)
Definition quad_credit (quad_pos : nat) : nat :=
  match quad_pos with
  | O => 0
  | 1%nat => 3
  | 2%nat => 2
  | _ => 1
  end.

(** ** Parts, once more *)

(** A [text/plain] leaf with the given body data. *)
Definition plain_leaf (data : pystr) : Part :=
  mkPart (Some (py "text/plain")) None (Some (mkBody (Some data))) None.

(** ** Requests of the fetcher *)

(** The request for a query: the user is [me], labels are sent only when
    there are some. *)
Definition request_of (q : pystr) (max_results : Z)
    (label_ids : option (list pystr)) : RequestParams :=
  {| req_userId := py "me";
     req_q := q;
     req_maxResults := max_results;
     req_labelIds :=
       match label_ids with
       | Some (l :: ls) => Some (l :: ls)
       | _ => None
       end |}.

Section Fetcher_vocabulary.

Context `{Out : Stdout} `{Svc : GmailService}.

(** One listing request and what becomes of it: the messages of the answer
    (none when the answer has no [messages]); when the service raises, no
    message and a printed line, or the exception of [sys.stdout] when it
    refuses the line. *)
Definition listing (request_params : RequestParams) : Io (list MessageRef) :=
  match list_execute request_params with
  | Returns results =>
      (Returns (default [] (results_messages results)),
       [ListExecute request_params])
  | Raises e =>
      match stdout_write (py "Error fetching messages: " ++ exn_str e) with
      | Returns _ =>
          (Returns [], [ListExecute request_params; ErrorFetchingMessages e])
      | Raises e' => (Raises e', [ListExecute request_params])
      end
  end.

End Fetcher_vocabulary.

(** A service that is down, with a clock that reads day 0 and a calendar
    that prints every day alike: to run the fetcher on concrete calls. *)
Definition offline_service : GmailService :=
  {| date := Z;
     now := 0%Z;
     minus_days := fun d n => Returns (d - n)%Z;
     strftime_ymd := fun _ => py "2025/11/06";
     list_execute := fun _ => Raises (LibraryError (py "offline"));
     get_execute := fun _ => Raises (LibraryError (py "offline")) |}.

(** The record of a message that has nothing. *)
Definition default_record : gmap pystr pystr :=
  list_to_map
    [ (py "id", []); (py "thread_id", []); (py "subject", py "No Subject");
      (py "sender", py "Unknown"); (py "to", []); (py "date", []);
      (py "body", []); (py "snippet", []) ].

(** ** Padding *)

(** An encoding without its pad characters. *)
Definition without_padding (s : pystr) : pystr :=
  List.filter (fun c => negb (c =? BASE64_PAD)) s.

(** * Properties *)

(** ** Methods *)

Lemma mbind_mret_l {S A B} (a : A) (k : A -> Method S B) s :
  mbind (mret a) k s = k a s.
Proof. unfold mbind, mret, ret. now destruct (k a s) as [[r out] s']. Qed.

Lemma mbind_keep {S A B} (m : Py A) (k : A -> Method S B) s :
  mbind (keep m) k s
  = match m with
    | (Returns a, out) =>
        (fst (fst (k a s)), out ++ snd (fst (k a s)), snd (k a s))
    | (Raises e, out) => (Raises e, out, s)
    end.
Proof.
  unfold mbind, keep. destruct m as [[a | e] out]; [ | reflexivity ].
  now destruct (k a s) as [[r out'] s'].
Qed.

Lemma mbind_assoc {S A B C} (m : Method S A) (k : A -> Method S B)
    (h : B -> Method S C) s :
  mbind (mbind m k) h s = mbind m (fun a => mbind (k a) h) s.
Proof.
  unfold mbind. destruct (m s) as [[[a | e] out] s1]; [ | reflexivity ].
  destruct (k a s1) as [[[b | e] out1] s2]; [ | reflexivity ].
  destruct (h b s2) as [[r out2] s3]. now rewrite app_assoc.
Qed.

Lemma mbind_ext {S A B} (m : Method S A) (k k' : A -> Method S B) s :
  (forall a s', k a s' = k' a s') -> mbind m k s = mbind m k' s.
Proof.
  intros H. unfold mbind. destruct (m s) as [[[a | e] out] s1]; [ | reflexivity ].
  now rewrite H.
Qed.

Lemma mbind_mret_r {S A} (m : Method S A) s : mbind m mret s = m s.
Proof.
  unfold mbind, mret, ret. destruct (m s) as [[[a | e] out] s1]; [ | reflexivity ].
  now rewrite app_nil_r.
Qed.

(** ** Lines that every stream takes *)

Section Printing.

Context `{Out : Stdout}.

Lemma print_ascii d :
  forallb is_ascii (line_of d) = true -> print d = (Returns tt, [d]).
Proof. intros H. unfold print. now rewrite (stdout_ascii _ H). Qed.

Lemma digits_ascii d : forallb is_ascii (digits d) = true.
Proof. induction d; simpl; auto. Qed.

(** The exceptions of the base64 decoder are its own, and their messages
    are ASCII. *)
Lemma a2b_loop_exn ascii_data : forall quad_pos leftchar pads bin_data e,
  a2b_loop ascii_data quad_pos leftchar pads bin_data = Raises e ->
  forallb is_ascii (exn_str e) = true.
Proof.
  induction ascii_data as [ | this_ch rest IH ];
    intros quad_pos leftchar pads bin_data e.
  - simpl. destruct quad_pos as [ | [ | q ] ]; [ discriminate | | ].
    + intros [= <-]. cbn [exn_str]. rewrite !forallb_app.
      unfold decimal. now rewrite digits_ascii.
    + now intros [= <-].
  - cbn [a2b_loop].
    destruct (this_ch =? BASE64_PAD).
    + destruct (2 <=? quad_pos)%nat; [ | apply IH ].
      destruct (4 <=? _); [ discriminate | apply IH ].
    + destruct (table_a2b_base64 this_ch); [ | apply IH ].
      destruct quad_pos as [ | [ | [ | q ] ] ]; apply IH.
Qed.

Lemma urlsafe_b64decode_exn encoded_body e :
  urlsafe_b64decode encoded_body = Raises e ->
  forallb is_ascii (exn_str e) = true.
Proof.
  unfold urlsafe_b64decode, a2b_base64.
  destruct (forallb is_ascii encoded_body); [ apply a2b_loop_exn | ].
  now intros [= <-].
Qed.

Lemma decode_body_raises encoded_body e :
  urlsafe_b64decode encoded_body = Raises e ->
  decode_body encoded_body = (Returns [], [ErrorDecodingBody e]).
Proof.
  intros H. unfold decode_body, lift. rewrite H. cbn [bind try_except].
  rewrite print_ascii; [ reflexivity | ].
  cbn [line_of]. rewrite forallb_app, (urlsafe_b64decode_exn _ _ H).
  reflexivity.
Qed.

Lemma decode_body_decodes encoded_body b :
  urlsafe_b64decode encoded_body = Returns b ->
  decode_body encoded_body = (Returns (utf8_decode_ignore b), []).
Proof. intros H. unfold decode_body, lift. now rewrite H. Qed.

Lemma decode_body_returns encoded_body :
  returns (decode_body encoded_body).
Proof.
  destruct (urlsafe_b64decode encoded_body) as [ b | e ] eqn:H.
  - rewrite (decode_body_decodes _ b H). now eexists _, _.
  - rewrite (decode_body_raises _ e H). now eexists _, _.
Qed.

End Printing.

(** ** Header normalisation *)

Section Headers.

Context `{Ext : Externals}.

Lemma extract_headers_nil : extract_headers [] = ∅.
Proof. reflexivity. Qed.

(** One more header: one more assignment [header_dict[name] = value]. *)
Lemma extract_headers_snoc headers h :
  extract_headers (headers ++ [h]) =
  <[normal_name h := value_of h]> (extract_headers headers).
Proof. unfold extract_headers. now rewrite fold_left_app. Qed.

Lemma extract_headers_lookup headers k :
  extract_headers headers !! k =
  value_of <$> last (filter (fun h => normal_name h = k) headers).
Proof.
  induction headers as [ | h headers IH ] using rev_ind; [ reflexivity | ].
  rewrite extract_headers_snoc, filter_app.
  destruct (decide (normal_name h = k)) as [ <- | Hne ].
  - rewrite lookup_insert_eq.
    rewrite (filter_cons_True _ h []) by reflexivity.
    rewrite filter_nil. now rewrite last_snoc.
  - rewrite lookup_insert_ne by assumption.
    rewrite (filter_cons_False _ h []) by assumption.
    now rewrite filter_nil, app_nil_r.
Qed.

Lemma extract_headers_keys headers :
  dom (extract_headers headers) = list_to_set (map normal_name headers).
Proof.
  induction headers as [ | h headers IH ] using rev_ind; [ reflexivity | ].
  rewrite extract_headers_snoc, dom_insert_L, IH, map_app, list_to_set_app_L.
  simpl. rewrite union_empty_r_L. apply union_comm_L.
Qed.

End Headers.

(** ** Metadata *)

Lemma truthy_snoc (cur : pystr) c : truthy (cur ++ [c]) = true.
Proof. now destruct cur. Qed.

Lemma split_from_length cur s :
  length (split_from cur s) =
  (count_tokens (truthy cur) s + (if truthy cur then 1 else 0))%nat.
Proof.
  revert cur. induction s as [ | c s IH ]; intros cur; simpl.
  - now destruct (truthy cur).
  - destruct (isspace c).
    + destruct (truthy cur); simpl; rewrite IH; simpl; lia.
    + rewrite IH, truthy_snoc. destruct (truthy cur); lia.
Qed.

Lemma split_length s : length (split s) = whitespace_delimited_tokens s.
Proof.
  unfold split, whitespace_delimited_tokens.
  rewrite split_from_length. simpl. lia.
Qed.

(** The tokens of [split] are not empty and hold no white space. *)
Lemma split_from_tokens cur s :
  forallb (fun c => negb (isspace c)) cur = true ->
  Forall (fun w => truthy w = true /\ forallb (fun c => negb (isspace c)) w = true)
         (split_from cur s).
Proof.
  revert cur. induction s as [ | c s IH ]; intros cur Hcur; simpl.
  - destruct (truthy cur) eqn:Ht; [ | constructor ].
    constructor; [ now split | constructor ].
  - destruct (isspace c) eqn:Hc.
    + destruct (truthy cur) eqn:Ht; [ constructor; [ now split | ] | ];
        now apply IH.
    + apply IH. rewrite forallb_app, Hcur. simpl. now rewrite Hc.
Qed.

(** C7. For every body string, the estimated reading time of the metadata
    is [max(1, word_count // 200)] with the division rounded down, where
    [word_count] is the number of white-space delimited tokens of the body;
    it is therefore at least 1, also for the empty body, whose word count
    is 0. *)
Theorem C7_reading_time :
  (forall parsed_email : gmap pystr pystr,
     let body := default [] (parsed_email !! py "body") in
     let m := calculate_metadata parsed_email in
     estimated_read_time_minutes m = Z.max 1 (word_count m / 200)
     /\ word_count m = Z.of_nat (whitespace_delimited_tokens body)
     /\ Forall (fun w => truthy w = true
                         /\ forallb (fun c => negb (isspace c)) w = true)
               (split body)
     /\ (1 <= estimated_read_time_minutes m)%Z)
  /\ word_count (calculate_metadata {[ py "body" := [] ]}) = 0%Z
  /\ estimated_read_time_minutes (calculate_metadata {[ py "body" := [] ]}) = 1%Z.
Proof.
  split; [ | split ].
  - intros parsed_email body m. subst m. unfold calculate_metadata. simpl.
    fold body. rewrite split_length.
    repeat split; [ now apply split_from_tokens | lia ].
  - unfold calculate_metadata. now rewrite lookup_singleton_eq.
  - unfold calculate_metadata. now rewrite lookup_singleton_eq.
Qed.

(** C6. For every sequence of headers, [extract_headers] builds the map by
    going through the sequence in order, lower-casing each name and
    overwriting the entry of a name already seen: the value found under a
    key is that of the last header whose lower-cased name is the key; in
    particular [("Subject","A"), ("subject","B")] gives the map with the
    single entry [subject -> B]. *)
Theorem C6_last_header_wins `{Ext : Externals} :
  extract_headers [] = ∅
  /\ (forall headers h,
        extract_headers (headers ++ [h]) =
        <[lower (default [] (header_name h)) := default [] (header_value h)]>
          (extract_headers headers))
  /\ (forall headers k,
        extract_headers headers !! k =
        (fun h => default [] (header_value h)) <$>
          last (filter (fun h => lower (default [] (header_name h)) = k) headers))
  /\ extract_headers
       [ mkHeader (Some (py "Subject")) (Some (py "A"));
         mkHeader (Some (py "subject")) (Some (py "B")) ]
     = {[ py "subject" := py "B" ]}.
Proof.
  split; [ reflexivity | ].
  split; [ apply extract_headers_snoc | ].
  split; [ apply extract_headers_lookup | ].
  unfold extract_headers. simpl.
  change (lower (py "Subject")) with (py "subject").
  change (lower (py "subject")) with (py "subject").
  now rewrite insert_insert_eq, insert_empty.
Qed.

(** ** The assembled record *)

Section Date_fault.

Context `{Out : Stdout} `{Ext : Externals}.

Lemma parse_date_eq date_str :
  parse_date date_str
  = match parsedate_to_datetime date_str with
    | Returns d => (Returns (Some d), [])
    | Raises e =>
        match stdout_write (line_of (ErrorParsingDate date_str e)) with
        | Returns _ => (Returns None, [ErrorParsingDate date_str e])
        | Raises e' => (Raises e', [])
        end
    end.
Proof.
  unfold parse_date, lift, try_except, print.
  destruct (parsedate_to_datetime date_str) as [ d | e ]; [ reflexivity | ].
  cbn [bind]. now destruct (stdout_write _).
Qed.

Lemma parse_message_eq message html_converter :
  parse_message message html_converter
  = match extract_body (payload_of message) html_converter with
    | ((Returns body, out), html_converter') =>
        match (if truthy (date_of message)
               then parse_date (date_of message)
               else ret None) with
        | (Returns parsed, out') =>
            ((Returns
                (record_of message body
                   match parsed with
                   | Some d => isoformat d
                   | None => []
                   end),
              out ++ out'), html_converter')
        | (Raises e, out') => ((Raises e, out ++ out'), html_converter')
        end
    | ((Raises e, out), html_converter') => ((Raises e, out), html_converter')
    end.
Proof.
  unfold parse_message. fold (payload_of message). fold (headers_of message).
  fold (date_of message). unfold mbind at 1.
  destruct (extract_body (payload_of message) html_converter)
    as [[[ body | e ] out] html_converter']; [ | reflexivity ].
  rewrite mbind_keep.
  destruct (if truthy (date_of message) then _ else _) as [[ parsed | e ] out'];
    [ | reflexivity ].
  cbn [mret ret fst snd]. now rewrite app_nil_r.
Qed.

End Date_fault.

(** C1, the code on a date that cannot be printed. [parse_date] guards the
    date parser with [try ... except Exception], but the handler prints
    the date string, and nothing guards that [print]: when the parser
    raises on the string under [date] and [sys.stdout] refuses the line,
    the exception of the stream leaves [parse_date] and [parse_message],
    which returns no record. When the body extraction returned, the
    exception is that of the stream and the lines printed are those of the
    body extraction. *)
Theorem C1_exception_leaves_parse_message `{Out : Stdout} `{Ext : Externals}
    message date_str e e' :
  extract_headers (headers_of message) !! py "date" = Some date_str ->
  date_str <> [] ->
  parsedate_to_datetime date_str = Raises e ->
  stdout_write (line_of (ErrorParsingDate date_str e)) = Raises e' ->
  parse_date date_str = (Raises e', [])
  /\ (forall html_converter,
        exists err out html_converter',
          parse_message message html_converter
          = ((Raises err, out), html_converter'))
  /\ (forall html_converter body out html_converter',
        extract_body (payload_of message) html_converter
        = ((Returns body, out), html_converter') ->
        parse_message message html_converter = ((Raises e', out), html_converter')).
Proof.
  intros Hdate Hne Hparse Hwrite.
  assert (Hpd : parse_date date_str = (Raises e', []))
    by now rewrite parse_date_eq, Hparse, Hwrite.
  assert (Hstep : forall html_converter body out html_converter',
            extract_body (payload_of message) html_converter
            = ((Returns body, out), html_converter') ->
            parse_message message html_converter
            = ((Raises e', out), html_converter')).
  { intros html_converter body out html_converter' Hbody.
    rewrite parse_message_eq, Hbody. unfold date_of. rewrite Hdate.
    destruct date_str as [ | c date_str ]; [ now elim Hne | ].
    cbn [default from_option id truthy]. rewrite Hpd. now rewrite app_nil_r. }
  split; [ exact Hpd | ]. split; [ | exact Hstep ].
  intros html_converter.
  destruct (extract_body (payload_of message) html_converter)
    as [[[ body | e0 ] out] html_converter'] eqn:Hbody.
  - exists e', out, html_converter'. now apply (Hstep _ body).
  - exists e0, out, html_converter'. now rewrite parse_message_eq, Hbody.
Qed.

Lemma C1_exception_leaves_parse_message_witness :
  let message :=
    mkMessage (Some (py "m1")) None
      (Some (mkPart None (Some [mkHeader (Some (py "Date")) (Some [0xD800])])
               None None))
      None in
  parse_date (Out := utf8_stdout) (Ext := refusing_libraries) [0xD800]
  = (Raises
       (LibraryError
          (py "'utf-8' codec can't encode character '\ud800' in position 20: surrogates not allowed")),
     [])
  /\ parse_message (Out := utf8_stdout) (Ext := refusing_libraries) message tt
     = ((Raises
           (LibraryError
              (py "'utf-8' codec can't encode character '\ud800' in position 20: surrogates not allowed")),
         []), tt).
Proof.
  intros message.
  destruct (C1_exception_leaves_parse_message
              (Out := utf8_stdout) (Ext := refusing_libraries) message [0xD800]
              (LibraryError
                 (py "Invalid date value or format " ++ [QUOTE; 0xD800; QUOTE]))
              (LibraryError
                 (py "'utf-8' codec can't encode character '\ud800' in position 20: surrogates not allowed")))
    as (Hdate & _ & Hmessage);
    [ reflexivity | discriminate | reflexivity | reflexivity | ].
  split; [ exact Hdate | ].
  apply (Hmessage tt [] [] tt). reflexivity.
Defined.

(** ** Body extraction *)

Section Extraction.

Context `{Out : Stdout} `{Ext : Externals}.

Lemma mbind_ext_on {S A B} (m : Method S A) (k k' : A -> Method S B) s :
  (forall a out s', m s = ((Returns a, out), s') -> k a s' = k' a s') ->
  mbind m k s = mbind m k' s.
Proof.
  intros H. unfold mbind.
  destruct (m s) as [[[a | e] out] s1] eqn:Hm; [ | reflexivity ].
  now rewrite (H a out s1).
Qed.

Lemma mbind_cong {S A B} (m m' : Method S A) (k : A -> Method S B) s :
  m s = m' s -> mbind m k s = mbind m' k s.
Proof. intros H. unfold mbind. now rewrite H. Qed.

Lemma mbind_returns {S A B} (m : Method S A) (k : A -> Method S B) s b out s' :
  mbind m k s = ((Returns b, out), s') ->
  exists a out1 s1 out2,
    m s = ((Returns a, out1), s1) /\ k a s1 = ((Returns b, out2), s')
    /\ out = out1 ++ out2.
Proof.
  unfold mbind. destruct (m s) as [[[a | e] out1] s1]; [ | discriminate ].
  destruct (k a s1) as [[r out2] s2] eqn:Hk. intros [= -> <- ->].
  now exists a, out1, s1, out2.
Qed.

(** The equation of the loop body at a container: the recursive call of
    [_extract_from_parts] of the source. *)
Lemma for_part_container mime hdrs body sub texts html_converter :
  for_part (mkPart mime hdrs body (Some sub)) texts html_converter =
  (let! t := _extract_from_parts sub in mret (texts ++ [t])) html_converter.
Proof.
  unfold _extract_from_parts. rewrite mbind_assoc. cbn [for_part].
  apply mbind_ext. intros inner s'. now rewrite mbind_mret_l.
Qed.

Lemma for_part_leaf mime hdrs body texts :
  for_part (mkPart mime hdrs body None) texts =
  if is_text_type mime then
    match body with
    | Some (mkBody (Some body_data)) =>
        let! decoded := keep (decode_body body_data) in
        let! decoded :=
          (if pystr_eqb (default [] mime) (py "text/html")
           then clean_html decoded
           else mret decoded) in
        mret (texts ++ [decoded])
    | _ => mret texts
    end
  else mret texts.
Proof. reflexivity. Qed.

(** A part only appends to [texts], and what it appends, prints and does
    to the converter does not depend on [texts]. *)
Lemma for_part_appends part texts html_converter :
  for_part part texts html_converter
  = (let! added := for_part part [] in mret (texts ++ added)) html_converter.
Proof.
  destruct part as [ mime hdrs body [ sub | ] ].
  - rewrite for_part_container.
    rewrite (mbind_cong _ _ _ _ (for_part_container mime hdrs body sub [] _)).
    rewrite mbind_assoc. apply mbind_ext. intros t s'.
    now rewrite mbind_mret_l.
  - rewrite !for_part_leaf. destruct (is_text_type mime);
      [ | now rewrite mbind_mret_l, app_nil_r ].
    destruct body as [ [ [ body_data | ] ] | ];
      try now rewrite mbind_mret_l, app_nil_r.
    rewrite !mbind_assoc. apply mbind_ext. intros decoded s'.
    rewrite mbind_assoc. apply mbind_ext. intros text s''.
    now rewrite mbind_mret_l.
Qed.

(** It appends at most one text. *)
Lemma for_part_one part html_converter added out html_converter' :
  for_part part [] html_converter = ((Returns added, out), html_converter') ->
  added = [] \/ exists t, added = [t].
Proof.
  destruct part as [ mime hdrs body [ sub | ] ].
  - rewrite for_part_container.
    intros (t & o1 & s1 & o2 & H1 & H2 & H3)%mbind_returns.
    injection H2 as <- _ _. right. now exists t.
  - rewrite for_part_leaf. destruct (is_text_type mime);
      [ | intros [= <- _ _]; now left ].
    destruct body as [ [ [ body_data | ] ] | ];
      try (intros [= <- _ _]; now left).
    intros (decoded & o1 & s1 & o2 & H1 & H2 & H3)%mbind_returns.
    apply mbind_returns in H2 as (t & o3 & s3 & o4 & H4 & H5 & H6).
    injection H5 as <- _ _. right. now exists t.
Qed.

Lemma for_loop_yield parts : forall texts html_converter,
  (let! all := for_loop for_part parts texts in
   mret (join SEP (List.filter truthy all))) html_converter
  = (let! yields := in_turn yield parts in
     mret (join SEP (List.filter truthy (texts ++ yields)))) html_converter.
Proof.
  induction parts as [ | part parts IH ]; intros texts html_converter.
  - cbn [for_loop in_turn]. now rewrite !mbind_mret_l, app_nil_r.
  - cbn [for_loop in_turn]. rewrite !mbind_assoc.
    rewrite (mbind_ext _ _ _ _ (fun t' s' => IH t' s')).
    rewrite (mbind_cong _ _ _ _ (for_part_appends part texts _)).
    unfold yield. rewrite !mbind_assoc.
    apply mbind_ext_on. intros added out s' Hadded.
    rewrite !mbind_mret_l, mbind_assoc. apply mbind_ext. intros yields s''.
    rewrite mbind_mret_l. do 2 f_equal.
    destruct (for_part_one _ _ _ _ _ Hadded) as [ -> | (t & ->) ].
    + rewrite app_nil_r, !List.filter_app. reflexivity.
    + now rewrite <- app_assoc.
Qed.

Lemma _extract_from_parts_eq parts html_converter :
  _extract_from_parts parts html_converter
  = (let! yields := in_turn yield parts in
     mret (join SEP (List.filter truthy yields))) html_converter.
Proof. unfold _extract_from_parts. now rewrite for_loop_yield. Qed.

(** The text of a child that is itself a container is its extraction. *)
Lemma yield_container mime hdrs body sub html_converter :
  yield (mkPart mime hdrs body (Some sub)) html_converter
  = _extract_from_parts sub html_converter.
Proof.
  unfold yield.
  rewrite (mbind_cong _ _ _ _ (for_part_container mime hdrs body sub [] _)).
  rewrite mbind_assoc, (mbind_ext _ _ mret); [ apply mbind_mret_r | ].
  intros t s'. now rewrite mbind_mret_l.
Qed.

(** The direct body comes first in [extract_body]. *)
Lemma extract_body_direct mime hdrs c body_data parts html_converter :
  extract_body (mkPart mime hdrs (Some (mkBody (Some (c :: body_data)))) parts)
    html_converter
  = (decode_body (c :: body_data), html_converter).
Proof. reflexivity. Qed.

Lemma extract_body_no_direct mime hdrs body parts html_converter :
  match body with
  | Some (mkBody (Some (_ :: _))) => False
  | _ => True
  end ->
  extract_body (mkPart mime hdrs body parts) html_converter
  = match parts with
    | Some sub => _extract_from_parts sub html_converter
    | None => (ret [], html_converter)
    end.
Proof.
  destruct body as [ [ [ [ | c d ] | ] ] | ]; intros H; try now elim H.
  all: now destruct parts.
Qed.

(** Handling in turn goes through a concatenation. *)
Lemma in_turn_app {A B} (f : A -> Method converter B) (l1 l2 : list A) s :
  in_turn f (l1 ++ l2) s
  = (let! ys1 := in_turn f l1 in
     let! ys2 := in_turn f l2 in
     mret (ys1 ++ ys2)) s.
Proof.
  revert s. induction l1 as [ | x l1 IH ]; intros s.
  - cbn [app in_turn]. rewrite mbind_mret_l.
    rewrite (mbind_ext _ _ mret); [ now rewrite mbind_mret_r | ].
    reflexivity.
  - cbn [app in_turn]. rewrite !mbind_assoc. apply mbind_ext. intros y s'.
    rewrite (mbind_cong _ _ _ _ (IH s')). rewrite !mbind_assoc.
    apply mbind_ext. intros ys1 s''. rewrite mbind_mret_l, mbind_assoc.
    apply mbind_ext. intros ys2 s3. now rewrite !mbind_mret_l.
Qed.

End Extraction.

(** C5. For every list of children and every state of the converter,
    [_extract_from_parts] handles the children in the order given, each
    from the state in which the one before it left the converter, and
    returns the texts of the children that are not empty, joined by two
    newlines; it prints what the children print, in that order, and raises
    what the first child that raises does. The text of a child that is a
    container is its own extraction. So an empty child adds no separator:
    the container whose three [text/plain] children hold the encodings of
    [A], of the empty string and of [B] extracts to [A], two newlines, [B].
    With a converter that counts its calls, two [text/html] leaves get the
    counts 0 and 1, in that order. *)
Theorem C5_join_of_nonempty_children `{Out : Stdout} `{Ext : Externals} :
  (forall parts html_converter,
     _extract_from_parts parts html_converter
     = (let! yields := in_turn yield parts in
        mret (join SEP (List.filter truthy yields))) html_converter)
  /\ (forall mime hdrs body sub html_converter,
        yield (mkPart mime hdrs body (Some sub)) html_converter
        = _extract_from_parts sub html_converter)
  /\ (forall mime hdrs sub html_converter,
        extract_body (mkPart mime hdrs None (Some sub)) html_converter
        = _extract_from_parts sub html_converter
        /\ extract_body (mkPart mime hdrs (Some (mkBody None)) (Some sub))
             html_converter
           = _extract_from_parts sub html_converter
        /\ extract_body (mkPart mime hdrs (Some (mkBody (Some []))) (Some sub))
             html_converter
           = _extract_from_parts sub html_converter)
  /\ (let leaf data :=
        mkPart (Some (py "text/plain")) None (Some (mkBody (Some data))) None in
      let children := [ leaf (py "QQ=="); leaf []; leaf (py "Qg==") ] in
      forall html_converter,
        in_turn yield children html_converter
        = ((Returns [ py "A"; []; py "B" ], []), html_converter)
        /\ extract_body
             (mkPart (Some (py "multipart/mixed")) None None (Some children))
             html_converter
           = ((Returns (py "A" ++ [NEWLINE; NEWLINE] ++ py "B"), []),
              html_converter))
  /\ (let html data :=
        mkPart (Some (py "text/html")) None (Some (mkBody (Some data))) None in
      _extract_from_parts (Out := Out) (Ext := counting_libraries)
        [ html (py "QQ=="); html (py "Qg==") ] 0
      = ((Returns (py "0A" ++ [NEWLINE; NEWLINE] ++ py "1B"), []), 2)).
Proof.
  split; [ apply _extract_from_parts_eq | ].
  split; [ apply yield_container | ].
  split; [ repeat split | ].
  split; [ | reflexivity ].
  intros leaf children html_converter. split; reflexivity.
Qed.

(** C10. A payload that has both direct body data that is not empty and a
    list of parts is extracted as its decoded direct body alone: the parts
    give neither text nor diagnostics, and the converter is not used.
    Inside a list of parts it is the other way round: a part that has
    children contributes the extraction of its children, whatever its own
    mime type and body are. *)
Theorem C10_precedence `{Out : Stdout} `{Ext : Externals} :
  (forall mime hdrs c body_data parts html_converter,
     extract_body
       (mkPart mime hdrs (Some (mkBody (Some (c :: body_data)))) (Some parts))
       html_converter
     = (decode_body (c :: body_data), html_converter))
  /\ (forall mime hdrs body sub texts html_converter,
        for_part (mkPart mime hdrs body (Some sub)) texts html_converter
        = (let! t := _extract_from_parts sub in mret (texts ++ [t]))
            html_converter)
  /\ (forall mime hdrs body_data sub html_converter,
        yield (mkPart mime hdrs (Some (mkBody (Some body_data))) (Some sub))
          html_converter
        = (let! yields := in_turn yield sub in
           mret (join SEP (List.filter truthy yields))) html_converter).
Proof.
  split; [ reflexivity | ].
  split; [ apply for_part_container | ].
  intros. rewrite yield_container. apply _extract_from_parts_eq.
Qed.

(** C2, the code on a leaf of another type. A leaf whose mime type is
    neither [text/plain] nor [text/html] adds nothing when it stands in a
    list of parts: the list extracts as it does without the leaf. As the
    payload of the message such a leaf is extracted as the empty string
    only when it has no body data or empty body data: with body data that
    is not empty it is extracted as the decoded data, since the direct
    branch of [extract_body] does not look at the mime type. *)
Theorem C2_other_mime_types `{Out : Stdout} `{Ext : Externals} mime hdrs body :
  default [] mime <> py "text/plain" ->
  default [] mime <> py "text/html" ->
  let leaf := mkPart mime hdrs body None in
  (forall texts html_converter,
     for_part leaf texts html_converter = (ret texts, html_converter))
  /\ (forall html_converter, yield leaf html_converter = (ret [], html_converter))
  /\ (forall before after html_converter,
        _extract_from_parts (before ++ leaf :: after) html_converter
        = _extract_from_parts (before ++ after) html_converter)
  /\ ((forall c body_data, body <> Some (mkBody (Some (c :: body_data)))) ->
      forall html_converter,
        extract_body leaf html_converter = (ret [], html_converter))
  /\ (forall c body_data,
        body = Some (mkBody (Some (c :: body_data))) ->
        forall html_converter,
          extract_body leaf html_converter
          = (decode_body (c :: body_data), html_converter)).
Proof.
  intros Hplain Hhtml leaf.
  assert (Hfor : forall texts html_converter,
            for_part leaf texts html_converter = (ret texts, html_converter)).
  { intros texts html_converter. unfold leaf. rewrite for_part_leaf.
    unfold is_text_type, pystr_eqb.
    now rewrite !bool_decide_eq_false_2. }
  assert (Hyield : forall html_converter,
            yield leaf html_converter = (ret [], html_converter)).
  { intros html_converter. unfold yield, mbind. now rewrite Hfor. }
  split; [ exact Hfor | ]. split; [ exact Hyield | ]. split; [ | split ].
  - intros before after html_converter. rewrite !_extract_from_parts_eq.
    rewrite (mbind_cong _ _ _ _ (in_turn_app yield before (leaf :: after) _)).
    rewrite (mbind_cong _ _ _ _ (in_turn_app yield before after _)).
    rewrite !mbind_assoc. apply mbind_ext. intros ys1 s1.
    assert (Hcons : in_turn yield (leaf :: after) s1
                    = (let! ys := in_turn yield after in mret ([] :: ys)) s1).
    { cbn [in_turn].
      rewrite (mbind_cong _ (mret []) _ _ (Hyield s1)).
      now rewrite mbind_mret_l. }
    rewrite !mbind_assoc, (mbind_cong _ _ _ _ Hcons), !mbind_assoc.
    apply mbind_ext. intros ys2 s2. rewrite !mbind_mret_l. do 2 f_equal.
    now rewrite !List.filter_app.
  - intros Hnone html_converter. unfold leaf.
    destruct body as [ [ [ [ | c d ] | ] ] | ]; try reflexivity.
    now elim (Hnone c d).
  - intros c body_data -> html_converter. reflexivity.
Qed.

Lemma C2_other_mime_types_witness :
  let pdf := mkPart (Some (py "application/pdf")) None
               (Some (mkBody (Some (py "aGk=")))) None in
  let empty_pdf := mkPart (Some (py "application/pdf")) None None None in
  _extract_from_parts (Out := utf8_stdout) (Ext := transparent_libraries)
    ([] ++ pdf :: []) tt
  = ((Returns [], []), tt)
  /\ extract_body (Out := utf8_stdout) (Ext := transparent_libraries) empty_pdf tt
     = ((Returns [], []), tt)
  /\ extract_body (Out := utf8_stdout) (Ext := transparent_libraries) pdf tt
     = ((Returns (py "hi"), []), tt).
Proof.
  intros pdf empty_pdf.
  split; [ | split ].
  - destruct (C2_other_mime_types (Out := utf8_stdout) (Ext := transparent_libraries)
                (Some (py "application/pdf")) None
                (Some (mkBody (Some (py "aGk=")))))
      as (_ & _ & Hparts & _); [ discriminate | discriminate | ].
    etransitivity; [ apply (Hparts [] [] tt) | reflexivity ].
  - apply (C2_other_mime_types (Out := utf8_stdout) (Ext := transparent_libraries)
             (Some (py "application/pdf")) None None);
      [ discriminate | discriminate | discriminate ].
  - destruct (C2_other_mime_types (Out := utf8_stdout) (Ext := transparent_libraries)
                (Some (py "application/pdf")) None
                (Some (mkBody (Some (py "aGk=")))))
      as (_ & _ & _ & _ & Hdata); [ discriminate | discriminate | ].
    etransitivity; [ apply (Hdata 97 (py "Gk=") eq_refl tt) | reflexivity ].
Defined.

(** C3, the code on an HTML leaf. In a list of parts the decoded text of a
    [text/html] leaf goes through [clean_html], which returns the text of
    the converter, or the markup it was given when the converter raises
    and the line for that fault can be printed. As the payload of the
    message the same leaf is extracted as the decoded markup: the
    converter is not called and stays as it is. *)
Theorem C3_html_leaf `{Out : Stdout} `{Ext : Externals} :
  let html_leaf data :=
    mkPart (Some (py "text/html")) None (Some (mkBody (Some data))) None in
  (forall html_content html_converter,
     clean_html html_content html_converter
     = match handle html_converter html_content with
       | (Returns text, html_converter') => ((Returns text, []), html_converter')
       | (Raises e, html_converter') =>
           match stdout_write (line_of (ErrorCleaningHTML e)) with
           | Returns _ =>
               ((Returns html_content, [ErrorCleaningHTML e]), html_converter')
           | Raises e' => ((Raises e', []), html_converter')
           end
       end)
  /\ (forall data texts html_converter,
        for_part (html_leaf data) texts html_converter
        = (let! decoded := keep (decode_body data) in
           let! text := clean_html decoded in
           mret (texts ++ [text])) html_converter)
  /\ (forall c data html_converter,
        extract_body (html_leaf (c :: data)) html_converter
        = (decode_body (c :: data), html_converter))
  /\ (forall html_converter,
        extract_body (html_leaf (py "PHA-SGk8L3A-")) html_converter
        = ((Returns (py "<p>Hi</p>"), []), html_converter))
  /\ (forall html_converter,
        _extract_from_parts [html_leaf (py "PHA-SGk8L3A-")] html_converter
        = clean_html (py "<p>Hi</p>") html_converter).
Proof.
  intros html_leaf.
  assert (Hclean : forall html_content html_converter,
            clean_html html_content html_converter
            = match handle html_converter html_content with
              | (Returns text, html_converter') =>
                  ((Returns text, []), html_converter')
              | (Raises e, html_converter') =>
                  match stdout_write (line_of (ErrorCleaningHTML e)) with
                  | Returns _ =>
                      ((Returns html_content, [ErrorCleaningHTML e]),
                       html_converter')
                  | Raises e' => ((Raises e', []), html_converter')
                  end
              end).
  { intros html_content html_converter. unfold clean_html, lift, try_except, print.
    destruct (handle html_converter html_content) as [[ text | e ] s'];
      [ reflexivity | ].
    cbn [bind]. now destruct (stdout_write _). }
  split; [ exact Hclean | ].
  split; [ reflexivity | ]. split; [ reflexivity | ]. split; [ reflexivity | ].
  intros html_converter. unfold _extract_from_parts. cbn [for_loop].
  subst html_leaf. cbv beta. rewrite !mbind_assoc.
  rewrite for_part_leaf.
  change (is_text_type (Some (py "text/html"))) with true.
  change (pystr_eqb (default [] (Some (py "text/html"))) (py "text/html"))
    with true.
  cbv iota.
  change (decode_body (py "PHA-SGk8L3A-")) with (ret (A := pystr) (py "<p>Hi</p>")).
  rewrite !mbind_assoc. change (keep (ret (py "<p>Hi</p>"))) with
    (mret (S := converter) (py "<p>Hi</p>")).
  rewrite mbind_mret_l, mbind_assoc.
  rewrite (mbind_ext _ _ mret); [ apply mbind_mret_r | ].
  intros text s'. rewrite !mbind_mret_l. cbn [app List.filter].
  now destruct text.
Qed.


(** ** The sender name *)

Lemma sender_group_eq group rest :
  sender_group group rest =
  if spaces_then_lt rest then Some group
  else match rest with
       | [] => None
       | c :: rest' =>
           if c =? NEWLINE then None else sender_group (group ++ [c]) rest'
       end.
Proof. now destruct rest. Qed.

Lemma spaces_then_lt_before before rest :
  LT ∉ before ->
  spaces_then_lt (before ++ LT :: rest) = forallb isspace before.
Proof.
  induction before as [ | c before IH ]; intros Hlt; [ reflexivity | ].
  apply not_elem_of_cons in Hlt as [Hc Hlt]. simpl.
  destruct (isspace c); [ now apply IH | ].
  now apply N.eqb_neq.
Qed.

Lemma spaces_then_lt_without s : LT ∉ s -> spaces_then_lt s = false.
Proof.
  induction s as [ | c s IH ]; intros Hlt; [ reflexivity | ].
  apply not_elem_of_cons in Hlt as [Hc Hlt]. simpl.
  destruct (isspace c); [ now apply IH | now apply N.eqb_neq ].
Qed.

Lemma sender_group_without rest : forall group,
  LT ∉ rest -> sender_group group rest = None.
Proof.
  induction rest as [ | c rest IH ]; intros group Hlt;
    rewrite sender_group_eq, spaces_then_lt_without by assumption;
    [ reflexivity | ].
  apply not_elem_of_cons in Hlt as [_ Hlt].
  destruct (c =? NEWLINE); [ reflexivity | now apply IH ].
Qed.

Lemma sender_group_before before rest : forall group,
  LT ∉ before ->
  sender_group group (before ++ LT :: rest) =
  if decide (NEWLINE ∈ rstrip_space before) then None
  else Some (group ++ rstrip_space before).
Proof.
  induction before as [ | c before IH ]; intros group Hlt.
  - rewrite sender_group_eq. simpl. now rewrite app_nil_r.
  - rewrite sender_group_eq, spaces_then_lt_before by assumption.
    change (rstrip_space (c :: before))
      with (if forallb isspace (c :: before) then [] else c :: rstrip_space before).
    destruct (forallb isspace (c :: before)).
    + now rewrite app_nil_r.
    + apply not_elem_of_cons in Hlt as [_ Hlt].
      change ((c :: before) ++ LT :: rest) with (c :: (before ++ LT :: rest)).
      cbv iota. rewrite IH by assumption. clear IH.
      destruct (N.eqb_spec c NEWLINE) as [ -> | Hc ].
      * rewrite decide_True by now left. reflexivity.
      * destruct (decide (NEWLINE ∈ rstrip_space before)) as [ Hin | Hout ].
        -- rewrite decide_True by now right. reflexivity.
        -- rewrite decide_False, <- app_assoc; [ reflexivity | ].
           intros [ Heq | Hin ]%elem_of_cons; [ now elim Hc | contradiction ].
Qed.

(** C8, as the code has it. When no [<] comes after the first character of
    the sender, the whole string is returned unchanged. When one does, and
    no newline stands in the text that is kept, the result is the text
    before the first such [<], without the white space that ends it (the
    first character is kept in any case) and then without the quote
    characters at both ends; with a newline in that text the whole string
    is returned. So the sender made of a quoted [Jane Doe], a space and the
    address in angle brackets gives [Jane Doe]. *)
Theorem C8_sender_name :
  extract_sender_name [] = []
  /\ (forall c rest, LT ∉ rest -> extract_sender_name (c :: rest) = c :: rest)
  /\ (forall c before rest,
        LT ∉ before ->
        NEWLINE ∉ c :: rstrip_space before ->
        extract_sender_name (c :: before ++ LT :: rest)
        = strip_quote (c :: rstrip_space before))
  /\ (forall c before rest,
        LT ∉ before ->
        NEWLINE ∈ c :: rstrip_space before ->
        extract_sender_name (c :: before ++ LT :: rest)
        = c :: before ++ LT :: rest)
  /\ extract_sender_name
       ([QUOTE] ++ py "Jane Doe" ++ [QUOTE] ++ py " <jane@example.com>")
     = py "Jane Doe".
Proof.
  split; [ reflexivity | ]. split; [ | split; [ | split ] ].
  - intros c rest Hlt. unfold extract_sender_name, match_sender.
    destruct (c =? NEWLINE); [ reflexivity | ].
    now rewrite sender_group_without.
  - intros c before rest Hlt Hnl.
    apply not_elem_of_cons in Hnl as [Hc Hnl].
    unfold extract_sender_name, match_sender.
    destruct (N.eqb_spec c NEWLINE) as [ -> | _ ]; [ now elim Hc | ].
    rewrite sender_group_before by assumption.
    case_decide as Hin; [ contradiction | reflexivity ].
  - intros c before rest Hlt Hnl.
    unfold extract_sender_name, match_sender.
    destruct (N.eqb_spec c NEWLINE) as [ -> | Hc ]; [ reflexivity | ].
    apply elem_of_cons in Hnl as [ Heq | Hnl ]; [ now elim Hc | ].
    rewrite sender_group_before by assumption.
    case_decide as Hin; [ reflexivity | contradiction ].
  - reflexivity.
Qed.

Lemma C8_sender_name_witness :
  extract_sender_name (py "Jane  <j@example.com>") = py "Jane".
Proof.
  destruct C8_sender_name as (_ & _ & H & _ & _).
  apply (H 74 (py "ane  ") (py "j@example.com>")).
  - apply (bool_decide_unpack _). vm_compute. exact I.
  - apply (bool_decide_unpack _). vm_compute. exact I.
Defined.

(** The claim C8 as the spec has it fails when the sender starts with
    [<]: the text before the first [<] is empty, the code returns the
    whole string. *)
Lemma C8_leading_angle_bracket :
  ~ (forall sender,
       (LT ∈ sender ->
        extract_sender_name sender = strip_quote (before_lt sender))
       /\ (LT ∉ sender -> extract_sender_name sender = sender)).
Proof.
  intros H. destruct (H (py "<a@b.com>")) as [Hlt _].
  assert (Hin : LT ∈ py "<a@b.com>") by (apply (bool_decide_unpack _); vm_compute; exact I).
  specialize (Hlt Hin). vm_compute in Hlt. discriminate.
Qed.

(** ** The transport encoding *)

Lemma all_below_spec n p :
  all_below n p = true -> forall v, v < N.of_nat n -> p v = true.
Proof.
  unfold all_below. rewrite forallb_forall. intros Hall v Hv.
  apply Hall, in_map_iff. exists (N.to_nat v).
  split; [ apply N2Nat.id | ]. apply in_seq. lia.
Qed.

Lemma sextet_roundtrip v :
  v < 64 ->
  let ch := urlsafe_decode_translation (table_b2a_urlsafe v) in
  (ch =? BASE64_PAD) = false
  /\ is_ascii (table_b2a_urlsafe v) = true
  /\ table_a2b_base64 ch = Some v.
Proof.
  intros Hv ch.
  assert (H : sextet_ok v = true)
    by (apply (all_below_spec 64); [ vm_compute; reflexivity | exact Hv ]).
  unfold sextet_ok in H. fold ch in H.
  apply andb_prop in H as [H Hw]. apply andb_prop in H as [Hpad Hascii].
  split; [ now apply negb_true_iff | ]. split; [ exact Hascii | ].
  destruct (table_a2b_base64 ch) as [ w | ]; [ | discriminate ].
  apply N.eqb_eq in Hw. now subst.
Qed.

Lemma octet_pairs x y :
  x < 256 -> y < 256 ->
  sextet0 x < 64 /\ sextet1 x y < 64 /\ sextet2 x y < 64 /\ sextet3 x < 64
  /\ N.lor (N.shiftl (sextet0 x) 2) (N.shiftr (sextet1 x y) 4) = x
  /\ N.land (sextet1 x y) 0x0f = N.shiftr y 4
  /\ N.lor (N.shiftl (N.shiftr x 4) 4) (N.shiftr (sextet2 x y) 2) = x
  /\ N.land (sextet2 x y) 0x03 = N.shiftr y 6
  /\ N.lor (N.shiftl (N.shiftr x 6) 6) (sextet3 x) = x.
Proof.
  intros Hx Hy.
  assert (H : octet_pair_ok x y = true).
  { apply (all_below_spec 256 (fun x => all_below 256 (octet_pair_ok x)) ) in Hx;
      [ | vm_compute; reflexivity ].
    now apply (all_below_spec 256 (octet_pair_ok x)). }
  unfold octet_pair_ok in H.
  repeat (apply andb_prop in H as [H ?]).
  repeat match goal with
         | E : (_ <? _) = true |- _ => apply N.ltb_lt in E
         | E : (_ =? _) = true |- _ => apply N.eqb_eq in E
         end.
  repeat split; assumption.
Qed.

Lemma list_ind3 {A} (P : list A -> Prop) :
  P [] -> (forall a, P [a]) -> (forall a b, P [a; b]) ->
  (forall a b c l, P l -> P (a :: b :: c :: l)) ->
  forall l, P l.
Proof.
  intros H0 H1 H2 H3. fix IH 1.
  intros [ | a [ | b [ | c l ] ] ];
    [ exact H0 | exact (H1 a) | exact (H2 a b) | exact (H3 a b c l (IH l)) ].
Qed.

(** One step of the decoder on the character of a sextet. *)
Lemma a2b_loop_sextet v rest quad_pos leftchar pads bin_data :
  v < 64 ->
  a2b_loop (sextet_char v :: rest) quad_pos leftchar pads bin_data =
  match quad_pos with
  | O => a2b_loop rest 1 v 0 bin_data
  | 1%nat =>
      a2b_loop rest 2 (N.land v 0x0f) 0
        (bin_data ++ [N.lor (N.shiftl leftchar 2) (N.shiftr v 4)])
  | 2%nat =>
      a2b_loop rest 3 (N.land v 0x03) 0
        (bin_data ++ [N.lor (N.shiftl leftchar 4) (N.shiftr v 2)])
  | _ => a2b_loop rest 0 0 0 (bin_data ++ [N.lor (N.shiftl leftchar 6) v])
  end.
Proof.
  intros Hv. destruct (sextet_roundtrip v Hv) as (Hpad & _ & Htable).
  cbn [a2b_loop]. fold (sextet_char v) in Hpad, Htable.
  now rewrite Hpad, Htable.
Qed.

Lemma urlsafe_b64encode_3 b0 b1 b2 rest :
  map urlsafe_decode_translation (urlsafe_b64encode (b0 :: b1 :: b2 :: rest)) =
  sextet_char (sextet0 b0) :: sextet_char (sextet1 b0 b1)
  :: sextet_char (sextet2 b1 b2) :: sextet_char (sextet3 b2)
  :: map urlsafe_decode_translation (urlsafe_b64encode rest).
Proof. reflexivity. Qed.

Lemma urlsafe_b64encode_2 b0 b1 :
  map urlsafe_decode_translation (urlsafe_b64encode [b0; b1]) =
  [ sextet_char (sextet0 b0); sextet_char (sextet1 b0 b1);
    sextet_char (sextet2 b1 0); BASE64_PAD ].
Proof.
  cbn [urlsafe_b64encode map]. unfold sextet_char, sextet2.
  change (N.shiftr 0 6) with 0. now rewrite N.lor_0_r.
Qed.

Lemma urlsafe_b64encode_1 b0 :
  map urlsafe_decode_translation (urlsafe_b64encode [b0]) =
  [ sextet_char (sextet0 b0); sextet_char (sextet1 b0 0);
    BASE64_PAD; BASE64_PAD ].
Proof.
  cbn [urlsafe_b64encode map]. unfold sextet_char, sextet1.
  change (N.shiftr 0 4) with 0. now rewrite N.lor_0_r.
Qed.

(** The decoder inverts the encoder, group by group. *)
Lemma a2b_loop_encode b :
  Forall (fun x => x < 256) b ->
  forall bin_data,
    a2b_loop (map urlsafe_decode_translation (urlsafe_b64encode b)) 0 0 0 bin_data
    = Returns (bin_data ++ b).
Proof.
  induction b as [ | b0 | b0 b1 | b0 b1 b2 rest IH ] using list_ind3;
    intros Hb bin_data.
  - simpl. now rewrite app_nil_r.
  - apply Forall_cons_1 in Hb as [H0 _].
    destruct (octet_pairs b0 0 H0) as (S0 & S1 & _ & _ & E0 & _); [ lia | ].
    rewrite urlsafe_b64encode_1.
    rewrite !a2b_loop_sextet by assumption. rewrite E0. reflexivity.
  - apply Forall_cons_1 in Hb as [H0 Hb]. apply Forall_cons_1 in Hb as [H1 _].
    destruct (octet_pairs b0 b1 H0 H1) as (S0 & S1 & _ & _ & E0 & L1 & _).
    destruct (octet_pairs b1 0 H1) as (_ & _ & S2 & _ & _ & _ & E1 & _); [ lia | ].
    rewrite urlsafe_b64encode_2.
    rewrite !a2b_loop_sextet by assumption. rewrite E0, L1, E1.
    cbn. now rewrite <- app_assoc.
  - apply Forall_cons_1 in Hb as [H0 Hb]. apply Forall_cons_1 in Hb as [H1 Hb].
    apply Forall_cons_1 in Hb as [H2 Hb].
    destruct (octet_pairs b0 b1 H0 H1) as (S0 & S1 & _ & _ & E0 & L1 & _).
    destruct (octet_pairs b1 b2 H1 H2) as (_ & _ & S2 & _ & _ & _ & E1 & L2 & _).
    destruct (octet_pairs b2 0 H2) as (_ & _ & _ & S3 & _ & _ & _ & _ & E2); [ lia | ].
    rewrite urlsafe_b64encode_3.
    rewrite !a2b_loop_sextet by assumption. rewrite E0, L1, E1, L2, E2.
    rewrite IH by assumption. now rewrite <- !app_assoc.
Qed.

Lemma urlsafe_b64encode_ascii b :
  Forall (fun x => x < 256) b ->
  forallb is_ascii (urlsafe_b64encode b) = true.
Proof.
  induction b as [ | b0 | b0 b1 | b0 b1 b2 rest IH ] using list_ind3; intros Hb.
  - reflexivity.
  - apply Forall_cons_1 in Hb as [H0 _].
    destruct (octet_pairs b0 0 H0) as (S0 & S1 & _); [ lia | ].
    apply sextet_roundtrip in S0 as (_ & A0 & _).
    apply sextet_roundtrip in S1 as (_ & A1 & _).
    unfold sextet1 in A1. change (N.shiftr 0 4) with 0 in A1.
    rewrite N.lor_0_r in A1.
    cbn [urlsafe_b64encode forallb]. fold (sextet0 b0).
    now rewrite A0, A1.
  - apply Forall_cons_1 in Hb as [H0 Hb]. apply Forall_cons_1 in Hb as [H1 _].
    destruct (octet_pairs b0 b1 H0 H1) as (S0 & S1 & _).
    destruct (octet_pairs b1 0 H1) as (_ & _ & S2 & _); [ lia | ].
    apply sextet_roundtrip in S0 as (_ & A0 & _).
    apply sextet_roundtrip in S1 as (_ & A1 & _).
    apply sextet_roundtrip in S2 as (_ & A2 & _).
    unfold sextet2 in A2. change (N.shiftr 0 6) with 0 in A2.
    rewrite N.lor_0_r in A2.
    cbn [urlsafe_b64encode forallb]. fold (sextet0 b0) (sextet1 b0 b1).
    now rewrite A0, A1, A2.
  - apply Forall_cons_1 in Hb as [H0 Hb]. apply Forall_cons_1 in Hb as [H1 Hb].
    apply Forall_cons_1 in Hb as [H2 Hb].
    destruct (octet_pairs b0 b1 H0 H1) as (S0 & S1 & _).
    destruct (octet_pairs b1 b2 H1 H2) as (_ & _ & S2 & _).
    destruct (octet_pairs b2 0 H2) as (_ & _ & _ & S3 & _); [ lia | ].
    apply sextet_roundtrip in S0 as (_ & A0 & _).
    apply sextet_roundtrip in S1 as (_ & A1 & _).
    apply sextet_roundtrip in S2 as (_ & A2 & _).
    apply sextet_roundtrip in S3 as (_ & A3 & _).
    cbn [urlsafe_b64encode forallb app].
    fold (sextet0 b0) (sextet1 b0 b1) (sextet2 b1 b2) (sextet3 b2).
    rewrite A0, A1, A2, A3. now apply IH.
Qed.

Lemma urlsafe_b64decode_encode b :
  Forall (fun x => x < 256) b ->
  urlsafe_b64decode (urlsafe_b64encode b) = Returns b.
Proof.
  intros Hb. unfold urlsafe_b64decode, a2b_base64.
  rewrite urlsafe_b64encode_ascii by assumption.
  now rewrite a2b_loop_encode.
Qed.

(** ** UTF-8 *)

Ltac Zify.zify_post_hook ::= Z.to_euclidean_division_equations.

Ltac bool_to_prop H :=
  repeat first
    [ rewrite andb_true_iff in H | rewrite andb_false_iff in H
    | rewrite orb_true_iff in H | rewrite orb_false_iff in H
    | rewrite N.leb_le in H | rewrite N.leb_gt in H
    | rewrite N.ltb_lt in H | rewrite N.ltb_ge in H
    | rewrite N.eqb_eq in H | rewrite N.eqb_neq in H ].

(** Decide the outermost test of the goal from the arithmetic facts at
    hand; a test that they leave open splits the goal. *)
Ltac resolve_test :=
  match goal with
  | |- context [ if ?b then _ else _ ] =>
      let E := fresh "E" in
      destruct b eqn:E; bool_to_prop E; try (exfalso; lia)
  end.

Ltac utf8_steps :=
  repeat (cbn [app utf8_run utf8_next]; unfold utf8_first; repeat resolve_test).

Lemma utf8_run_encode_char c rest :
  is_scalar c = true ->
  utf8_run Idle (utf8_encode_char c ++ rest) = c :: utf8_run Idle rest.
Proof.
  intros Hc. unfold is_scalar in Hc. bool_to_prop Hc.
  unfold utf8_encode_char. repeat resolve_test.
  - utf8_steps. reflexivity.
  - utf8_steps; f_equal; lia.
  - utf8_steps; f_equal; lia.
  - utf8_steps; f_equal; lia.
Qed.

Lemma utf8_encode_char_octets c :
  is_scalar c = true -> Forall (fun x => x < 256) (utf8_encode_char c).
Proof.
  intros Hc. unfold is_scalar in Hc. bool_to_prop Hc.
  unfold utf8_encode_char. repeat resolve_test;
    repeat (constructor; try lia).
Qed.

(** Decoding what was encoded, whatever octets follow. *)
Lemma utf8_run_encode t : forall b rest,
  utf8_encode t = Some b ->
  utf8_run Idle (b ++ rest) = t ++ utf8_run Idle rest.
Proof.
  induction t as [ | c t IH ]; intros b rest Hb; simpl in Hb.
  - now injection Hb as <-.
  - destruct (is_scalar c) eqn:Hc; [ | discriminate ].
    destruct (utf8_encode t) as [ b' | ]; [ | discriminate ].
    injection Hb as <-. rewrite <- app_assoc.
    rewrite utf8_run_encode_char by assumption.
    now rewrite (IH b').
Qed.

Lemma utf8_decode_encode t b :
  utf8_encode t = Some b -> utf8_decode_ignore b = t.
Proof.
  intros Hb. unfold utf8_decode_ignore.
  rewrite <- (app_nil_r b), (utf8_run_encode t b []) by assumption.
  apply app_nil_r.
Qed.

Lemma utf8_encode_octets t : forall b,
  utf8_encode t = Some b -> Forall (fun x => x < 256) b.
Proof.
  induction t as [ | c t IH ]; intros b Hb; simpl in Hb.
  - injection Hb as <-. constructor.
  - destruct (is_scalar c) eqn:Hc; [ | discriminate ].
    destruct (utf8_encode t) as [ b' | ]; [ | discriminate ].
    injection Hb as <-. apply Forall_app. split.
    + now apply utf8_encode_char_octets.
    + now apply IH.
Qed.

(** An octet from [0xF5] on starts no sequence: it is ignored. *)
Lemma utf8_run_junk junk rest :
  0xF5 <= junk -> utf8_run Idle (junk :: rest) = utf8_run Idle rest.
Proof. intros Hj. utf8_steps. reflexivity. Qed.

Lemma valid_utf8_decode b :
  valid_utf8 b <-> utf8_encode (utf8_decode_ignore b) = Some b.
Proof.
  split.
  - intros [t Ht]. now rewrite (utf8_decode_encode t b Ht).
  - intros H. now exists (utf8_decode_ignore b).
Qed.

(** ** [decode_body] *)

Lemma a2b_loop_skip ch post pre :
  (ch =? BASE64_PAD) = false ->
  table_a2b_base64 ch = None ->
  forall quad_pos leftchar pads bin_data,
    a2b_loop (pre ++ ch :: post) quad_pos leftchar pads bin_data
    = a2b_loop (pre ++ post) quad_pos leftchar pads bin_data.
Proof.
  intros Hpad Htable.
  induction pre as [ | x pre IH ]; intros quad_pos leftchar pads bin_data.
  - cbn [app a2b_loop]. now rewrite Hpad, Htable.
  - cbn [app a2b_loop]. destruct (x =? BASE64_PAD).
    + destruct (2 <=? quad_pos)%nat; [ | apply IH ].
      destruct (4 <=? _); [ reflexivity | apply IH ].
    + destruct (table_a2b_base64 x); [ | apply IH ].
      destruct quad_pos as [ | [ | [ | quad_pos ] ] ]; apply IH.
Qed.

Lemma urlsafe_b64decode_skip s1 c s2 :
  ignored_char c = true ->
  urlsafe_b64decode (s1 ++ c :: s2) = urlsafe_b64decode (s1 ++ s2).
Proof.
  unfold ignored_char. intros Hc.
  apply andb_prop in Hc as [Hc Htable]. apply andb_prop in Hc as [Hascii Hpad].
  unfold urlsafe_b64decode, a2b_base64.
  rewrite !forallb_app. cbn [forallb]. rewrite Hascii. cbn [andb].
  destruct (forallb is_ascii s1 && forallb is_ascii s2); [ | reflexivity ].
  rewrite !map_app. cbn [map]. apply a2b_loop_skip.
  - apply negb_true_iff in Hpad. unfold urlsafe_decode_translation.
    repeat resolve_test; try reflexivity; assumption.
  - now destruct (table_a2b_base64 (urlsafe_decode_translation c)).
Qed.

(** C9. Round trip: the URL-safe base64 encoding of the UTF-8 encoding of a
    text [t] (a string of Unicode scalar values, which is what can be
    encoded) is decoded by [decode_body] to [t] itself, with no
    diagnostic. *)
Theorem C9_round_trip `{Out : Stdout} (t : pystr) (b : pybytes) :
  utf8_encode t = Some b ->
  decode_body (urlsafe_b64encode b) = (Returns t, []).
Proof.
  intros Hb. rewrite (decode_body_decodes _ b).
  - now rewrite (utf8_decode_encode t b).
  - apply urlsafe_b64decode_encode. now apply (utf8_encode_octets t).
Qed.

Lemma C9_round_trip_witness :
  utf8_encode [104; 233; 20320; 128512]
  = Some [104; 195; 169; 228; 189; 160; 240; 159; 152; 128]
  /\ decode_body (Out := utf8_stdout) (py "aMOp5L2g8J-YgA==")
     = (Returns [104; 233; 20320; 128512], []).
Proof.
  split; [ reflexivity | ].
  apply (C9_round_trip (Out := utf8_stdout) [104; 233; 20320; 128512]
           [104; 195; 169; 228; 189; 160; 240; 159; 152; 128]).
  reflexivity.
Defined.

(** C4, as the code has it. [decode_body] never raises. When the base64
    decoder raises (the string is not ASCII, or its data ends inside a
    quad), the result is the empty string and the fault is printed.
    Otherwise the octets are decoded as UTF-8 with the ill-formed ones
    ignored: the text around an octet that cannot occur in UTF-8 is kept,
    so the result can be a partial string. A character outside the
    alphabet is skipped by the decoder and is no fault. *)
Theorem C4_decode_body `{Out : Stdout} :
  (forall encoded_body,
     exists text out, decode_body encoded_body = (Returns text, out))
  /\ (forall encoded_body e,
        urlsafe_b64decode encoded_body = Raises e ->
        decode_body encoded_body = (Returns [], [ErrorDecodingBody e]))
  /\ (forall encoded_body b,
        urlsafe_b64decode encoded_body = Returns b ->
        decode_body encoded_body = (Returns (utf8_decode_ignore b), []))
  /\ (forall t1 b1 junk t2 b2,
        utf8_encode t1 = Some b1 -> utf8_encode t2 = Some b2 -> 0xF5 <= junk ->
        utf8_decode_ignore (b1 ++ junk :: b2) = t1 ++ t2)
  /\ (forall s1 c s2,
        ignored_char c = true ->
        decode_body (s1 ++ c :: s2) = decode_body (s1 ++ s2))
  /\ decode_body (py "!!!not-base64!!!")
     = (Returns [], [ErrorDecodingBody IncorrectPadding])
  /\ decode_body (py "aGn_") = (Returns (py "hi"), [])
  /\ decode_body (py "!aGk=") = (Returns (py "hi"), []).
Proof.
  split; [ apply decode_body_returns | ].
  split; [ apply decode_body_raises | ].
  split; [ apply decode_body_decodes | ].
  split; [ | split; [ | repeat split; try reflexivity ] ].
  - intros t1 b1 junk t2 b2 H1 H2 Hj. unfold utf8_decode_ignore.
    rewrite (utf8_run_encode t1 b1) by assumption.
    rewrite utf8_run_junk by assumption.
    now rewrite (utf8_decode_encode t2 b2 H2 : utf8_run Idle b2 = t2).
  - intros s1 c s2 Hc. unfold decode_body.
    now rewrite urlsafe_b64decode_skip.
  - now apply decode_body_raises.
Qed.

Lemma C4_decode_body_witness :
  decode_body (Out := utf8_stdout) (py "aQ")
  = (Returns [], [ErrorDecodingBody IncorrectPadding])
  /\ decode_body (Out := utf8_stdout) (py "aGk=") = (Returns (py "hi"), [])
  /\ utf8_decode_ignore (py "a" ++ 255 :: py "b") = py "ab"
  /\ decode_body (Out := utf8_stdout) (py "aG" ++ 10 :: py "k=")
     = decode_body (Out := utf8_stdout) (py "aG" ++ py "k=").
Proof.
  destruct (C4_decode_body (Out := utf8_stdout))
    as (_ & Hraise & Hdecode & Hjunk & Hskip & _).
  split; [ apply Hraise; reflexivity | ].
  split; [ apply (Hdecode _ [104; 105]); reflexivity | ].
  split; [ apply (Hjunk (py "a") (py "a") 255 (py "b") (py "b"));
           [ reflexivity | reflexivity | vm_compute; discriminate ] | ].
  apply Hskip. reflexivity.
Defined.

(** The claim C4 as the spec has it fails on octets that are not valid
    UTF-8: the data [aGn_] decodes to the octets of [hi] followed by
    [0xFF], and [decode_body] returns [hi], not the empty string. *)
Lemma C4_invalid_utf8_is_kept :
  ~ (forall (Out : Stdout) encoded_body,
       (forall e, urlsafe_b64decode encoded_body = Raises e ->
                  result (decode_body encoded_body) = Returns [])
       /\ (forall b, urlsafe_b64decode encoded_body = Returns b ->
                     ~ valid_utf8 b ->
                     result (decode_body encoded_body) = Returns [])).
Proof.
  intros H. destruct (H utf8_stdout (py "aGn_")) as [_ Hutf8].
  specialize (Hutf8 [104; 105; 255] eq_refl).
  assert (Hbad : ~ valid_utf8 [104; 105; 255])
    by (rewrite valid_utf8_decode; vm_compute; discriminate).
  specialize (Hutf8 Hbad). vm_compute in Hutf8. discriminate.
Qed.

(** * More of the parser *)

(** ** The sender address *)

Lemma search_email_eq s :
  search_email s =
  match match_email_here s with
  | Some group1 => Some group1
  | None => match s with [] => None | _ :: s' => search_email s' end
  end.
Proof. now destruct s. Qed.

Lemma email_group_found x after : forall group,
  GT ∉ x -> NEWLINE ∉ x ->
  email_group group (x ++ GT :: after) = Some (group ++ x).
Proof.
  induction x as [ | c x IH ]; intros group Hgt Hnl.
  - simpl. now rewrite app_nil_r.
  - apply not_elem_of_cons in Hgt as [Hc1 Hgt].
    apply not_elem_of_cons in Hnl as [Hc2 Hnl].
    cbn [app email_group].
    destruct (N.eqb_spec c GT) as [ -> | _ ]; [ now elim Hc1 | ].
    destruct (N.eqb_spec c NEWLINE) as [ -> | _ ]; [ now elim Hc2 | ].
    rewrite IH by assumption. now rewrite <- app_assoc.
Qed.

Lemma email_group_sound rest : forall group r,
  email_group group rest = Some r ->
  exists x post,
    r = group ++ x /\ rest = x ++ GT :: post /\ (GT ∉ x) /\ (NEWLINE ∉ x).
Proof.
  induction rest as [ | c rest IH ]; intros group r H; [ discriminate | ].
  cbn [email_group] in H.
  destruct (N.eqb_spec c GT) as [ -> | Hgt ].
  - injection H as <-. exists [], rest. rewrite app_nil_r.
    repeat split; apply not_elem_of_nil.
  - destruct (N.eqb_spec c NEWLINE) as [ -> | Hnl ]; [ discriminate | ].
    apply IH in H as (x & post & -> & -> & Hx1 & Hx2).
    exists (c :: x), post. rewrite <- app_assoc.
    repeat split; apply not_elem_of_cons; auto.
Qed.

Lemma search_email_skip before s :
  LT ∉ before -> search_email (before ++ s) = search_email s.
Proof.
  induction before as [ | c before IH ]; intros Hlt; [ reflexivity | ].
  apply not_elem_of_cons in Hlt as [Hc Hlt].
  rewrite search_email_eq. cbn [app].
  replace (match_email_here (c :: before ++ s)) with (@None pystr).
  - now apply IH.
  - unfold match_email_here. destruct (before ++ s); [ reflexivity | ].
    destruct (N.eqb_spec c LT) as [ -> | _ ]; [ now elim Hc | reflexivity ].
Qed.

Lemma search_email_sound s : forall r,
  search_email s = Some r ->
  exists pre c x post,
    r = c :: x /\ s = pre ++ LT :: c :: x ++ GT :: post
    /\ (NEWLINE ∉ c :: x) /\ (GT ∉ x).
Proof.
  induction s as [ | c0 s IH ]; intros r H; [ discriminate | ].
  rewrite search_email_eq in H.
  destruct (match_email_here (c0 :: s)) as [ g | ] eqn:Hhere.
  - injection H as <-. unfold match_email_here in Hhere.
    destruct s as [ | c1 rest ]; [ discriminate | ].
    destruct (N.eqb_spec c0 LT) as [ -> | _ ]; [ | discriminate ].
    destruct (N.eqb_spec c1 NEWLINE) as [ -> | Hnl ]; [ discriminate | ].
    cbn [andb negb] in Hhere.
    apply email_group_sound in Hhere as (x & post & -> & -> & Hx1 & Hx2).
    exists [], c1, x, post. repeat split; try assumption.
    apply not_elem_of_cons. auto.
  - apply IH in H as (pre & c & x & post & -> & -> & Hnl & Hgt).
    exists (c0 :: pre), c, x, post. auto.
Qed.

Lemma existsb_AT (s : pystr) : existsb (N.eqb AT) s = bool_decide (AT ∈ s).
Proof.
  induction s as [ | c s IH ]; [ reflexivity | ].
  cbn [existsb]. rewrite IH.
  destruct (N.eqb_spec AT c) as [ <- | Hne ].
  - symmetry. apply bool_decide_eq_true. now left.
  - cbn [orb]. apply bool_decide_ext. rewrite elem_of_cons.
    split; [ now right | now intros [ Heq | Hin ] ].
Qed.

Lemma extract_sender_email_bracketed_aux before addr after :
  LT ∉ before -> addr <> [] -> GT ∉ addr -> NEWLINE ∉ addr ->
  extract_sender_email (before ++ [LT] ++ addr ++ [GT] ++ after) = addr.
Proof.
  intros Hlt Hne Hgt Hnl. unfold extract_sender_email.
  rewrite search_email_skip by assumption.
  destruct addr as [ | c x ]; [ now elim Hne | ].
  apply not_elem_of_cons in Hgt as [_ Hgt].
  apply not_elem_of_cons in Hnl as [Hc Hnl].
  rewrite search_email_eq. cbn [app match_email_here].
  destruct (N.eqb_spec c NEWLINE) as [ -> | _ ]; [ now elim Hc | ].
  change (LT =? LT) with true. cbn [andb negb].
  now rewrite email_group_found.
Qed.

(** X1. An address in angle brackets is found: when no [<] comes before the
    bracketed text, and that text is not empty and holds neither [>] nor a
    newline, [extract_sender_email] returns exactly the text between the
    brackets, whatever follows. *)
Theorem extract_sender_email_bracketed before addr after :
  LT ∉ before -> addr <> [] -> GT ∉ addr -> NEWLINE ∉ addr ->
  extract_sender_email (before ++ [LT] ++ addr ++ [GT] ++ after) = addr.
Proof. apply extract_sender_email_bracketed_aux. Qed.

Lemma extract_sender_email_bracketed_witness :
  extract_sender_email
    ([QUOTE] ++ py "Jane Doe" ++ [QUOTE] ++ py " <jane@example.com>")
  = py "jane@example.com".
Proof.
  apply (extract_sender_email_bracketed
           ([QUOTE] ++ py "Jane Doe" ++ [QUOTE] ++ py " ")
           (py "jane@example.com") []).
  - apply (bool_decide_unpack _). vm_compute. exact I.
  - discriminate.
  - apply (bool_decide_unpack _). vm_compute. exact I.
  - apply (bool_decide_unpack _). vm_compute. exact I.
Defined.

Lemma email_group_complete x post : forall group,
  NEWLINE ∉ x -> email_group group (x ++ GT :: post) <> None.
Proof.
  induction x as [ | c x IH ]; intros group Hnl.
  - cbn [app email_group]. change (GT =? GT) with true. discriminate.
  - apply not_elem_of_cons in Hnl as [Hc Hnl].
    cbn [app email_group].
    destruct (N.eqb_spec c GT) as [ _ | _ ]; [ discriminate | ].
    destruct (N.eqb_spec c NEWLINE) as [ -> | _ ]; [ now elim Hc | ].
    now apply IH.
Qed.

(** The search finds a bracketed text whenever there is one. *)
Lemma search_email_complete sender :
  bracketed_text sender -> search_email sender <> None.
Proof.
  intros (pre & c & x & post & -> & Hnl).
  apply not_elem_of_cons in Hnl as [Hc Hnl].
  induction pre as [ | c0 pre IH ].
  - rewrite search_email_eq. cbn [app match_email_here].
    change (LT =? LT) with true.
    destruct (N.eqb_spec c NEWLINE) as [ -> | _ ]; [ now elim Hc | ].
    cbn [andb negb].
    destruct (email_group [c] (x ++ GT :: post)) eqn:Hg; [ discriminate | ].
    now apply email_group_complete in Hg.
  - rewrite search_email_eq.
    destruct (match_email_here ((c0 :: pre) ++ _)); [ discriminate | ].
    exact IH.
Qed.

(** X2. Where the result of [extract_sender_email] comes from. Either it is
    a text that stands in the sender between a [<] and a [>], not empty,
    without a newline and with no [>] after its first character; or the
    sender holds no bracketed text at all (no [<] that is followed by one
    or more characters other than newlines and then a [>]) and the result
    is the whole sender, which then holds an [@]; or the sender holds no
    bracketed text and no [@], and the result is empty. *)
Theorem extract_sender_email_cases sender :
  (exists pre c x post,
     sender = pre ++ LT :: c :: x ++ GT :: post
     /\ (NEWLINE ∉ c :: x) /\ (GT ∉ x)
     /\ extract_sender_email sender = c :: x)
  \/ (~ bracketed_text sender /\ (AT ∈ sender)
      /\ extract_sender_email sender = sender)
  \/ (~ bracketed_text sender /\ (AT ∉ sender)
      /\ extract_sender_email sender = []).
Proof.
  unfold extract_sender_email.
  destruct (search_email sender) as [ r | ] eqn:Hs.
  - left. apply search_email_sound in Hs as (pre & c & x & post & -> & -> & H1 & H2).
    now exists pre, c, x, post.
  - assert (Hnone : ~ bracketed_text sender)
      by (intros Hb; now apply search_email_complete in Hb).
    right. rewrite existsb_AT.
    destruct (decide (AT ∈ sender)) as [ Hin | Hout ].
    + left. now rewrite bool_decide_eq_true_2.
    + right. now rewrite bool_decide_eq_false_2.
Qed.

(** X3. Without brackets the sender is its own address: when the sender
    holds no [<], or no [>], [extract_sender_email] returns the whole
    sender if it holds an [@] and the empty string otherwise. *)
Theorem extract_sender_email_plain sender :
  (LT ∉ sender) \/ (GT ∉ sender) ->
  extract_sender_email sender = if bool_decide (AT ∈ sender) then sender else [].
Proof.
  intros Hno. unfold extract_sender_email.
  destruct (search_email sender) as [ r | ] eqn:Hs; [ | now rewrite existsb_AT ].
  exfalso.
  apply search_email_sound in Hs as (pre & c & x & post & _ & -> & _ & _).
  destruct Hno as [ Hno | Hno ]; apply Hno.
  - apply elem_of_app. right. now left.
  - apply elem_of_app. right. right. right. apply elem_of_app. right. now left.
Qed.

Lemma extract_sender_email_plain_witness :
  extract_sender_email (py "newsletter@example.com") = py "newsletter@example.com"
  /\ extract_sender_email (py "Unknown") = [].
Proof.
  split.
  - rewrite (extract_sender_email_plain (py "newsletter@example.com")).
    + reflexivity.
    + left. apply (bool_decide_unpack _). vm_compute. exact I.
  - rewrite (extract_sender_email_plain (py "Unknown")).
    + reflexivity.
    + left. apply (bool_decide_unpack _). vm_compute. exact I.
Defined.

(** ** Name and address of one sender *)

Lemma rstrip_space_snoc x (l : pystr) :
  isspace x = true -> rstrip_space (l ++ [x]) = rstrip_space l.
Proof.
  intros Hx. induction l as [ | c l IH ].
  - simpl. now rewrite Hx.
  - change ((c :: l) ++ [x]) with (c :: (l ++ [x])).
    change (rstrip_space (c :: (l ++ [x])))
      with (if forallb isspace ((c :: l) ++ [x]) then []
            else c :: rstrip_space (l ++ [x])).
    change (rstrip_space (c :: l))
      with (if forallb isspace (c :: l) then [] else c :: rstrip_space l).
    rewrite forallb_app, IH. cbn [forallb]. rewrite Hx.
    now rewrite !andb_true_r.
Qed.

Lemma rstrip_space_fixed c (l : pystr) :
  rstrip_space (c :: l) = c :: l -> rstrip_space l = l.
Proof.
  change (rstrip_space (c :: l))
    with (if forallb isspace (c :: l) then [] else c :: rstrip_space l).
  destruct (forallb isspace (c :: l)); [ discriminate | ].
  now intros [= ->].
Qed.

(** X4. A sender written as a name, a space and an address in angle
    brackets gives both back: when the name is not empty, holds no [<] and
    no newline and does not end in white space, and the address is not
    empty and holds no [>] and no newline, [extract_sender_name] returns
    the name without the quote characters at its ends and
    [extract_sender_email] returns the address. *)
Theorem sender_format_round_trip name addr :
  name <> [] -> LT ∉ name -> NEWLINE ∉ name -> rstrip_space name = name ->
  addr <> [] -> GT ∉ addr -> NEWLINE ∉ addr ->
  let sender := name ++ py " <" ++ addr ++ [GT] in
  extract_sender_name sender = strip_quote name
  /\ extract_sender_email sender = addr.
Proof.
  intros Hne Hlt Hnl Hstrip Hane Hagt Hanl sender. split.
  - destruct name as [ | c n ]; [ now elim Hne | ].
    apply not_elem_of_cons in Hlt as [_ Hlt].
    pose proof (rstrip_space_fixed c n Hstrip) as Hn.
    unfold sender.
    change ((c :: n) ++ py " <" ++ addr ++ [GT])
      with (c :: (n ++ 32 :: LT :: (addr ++ [GT]))).
    replace (n ++ 32 :: LT :: (addr ++ [GT]))
      with ((n ++ [32]) ++ LT :: (addr ++ [GT])) by now rewrite <- app_assoc.
    unfold extract_sender_name, match_sender.
    destruct (N.eqb_spec c NEWLINE) as [ -> | _ ];
      [ exfalso; apply Hnl; now left | ].
    rewrite sender_group_before.
    + rewrite rstrip_space_snoc, Hn by reflexivity.
      rewrite decide_False; [ reflexivity | ].
      intros Hin. apply Hnl. now right.
    + apply not_elem_of_app. split; [ assumption | ].
      apply not_elem_of_cons. split; [ discriminate | apply not_elem_of_nil ].
  - unfold sender.
    replace (name ++ py " <" ++ addr ++ [GT])
      with ((name ++ [32]) ++ [LT] ++ addr ++ [GT] ++ [])
      by now rewrite <- app_assoc.
    apply extract_sender_email_bracketed_aux; try assumption.
    apply not_elem_of_app. split; [ assumption | ].
    apply not_elem_of_cons. split; [ discriminate | apply not_elem_of_nil ].
Qed.

Lemma sender_format_round_trip_witness :
  extract_sender_name (py "John Doe <john@example.com>") = py "John Doe"
  /\ extract_sender_email (py "John Doe <john@example.com>") = py "john@example.com".
Proof.
  apply (sender_format_round_trip (py "John Doe") (py "john@example.com"));
    try discriminate; try reflexivity;
    apply (bool_decide_unpack _); vm_compute; exact I.
Defined.

(** ** The name, once more *)

Lemma isspace_LT : isspace LT = false.
Proof. reflexivity. Qed.

Lemma sender_group_shape rest : forall group g,
  sender_group group rest = Some g ->
  exists x, g = group ++ x /\ (LT ∉ x).
Proof.
  induction rest as [ | c rest IH ]; intros group g H;
    rewrite sender_group_eq in H.
  - discriminate.
  - destruct (spaces_then_lt (c :: rest)) eqn:Hs.
    + injection H as <-. exists []. rewrite app_nil_r.
      split; [ reflexivity | apply not_elem_of_nil ].
    + destruct (c =? NEWLINE); [ discriminate | ].
      apply IH in H as (x & -> & Hx). exists (c :: x).
      rewrite <- app_assoc. split; [ reflexivity | ].
      apply not_elem_of_cons. split; [ | assumption ].
      intros Heq. subst c. cbn [spaces_then_lt] in Hs.
      rewrite isspace_LT in Hs. discriminate.
Qed.

Lemma lstrip_quote_suffix (l : pystr) : exists p, l = p ++ lstrip_quote l.
Proof.
  induction l as [ | c l [p IH] ]; [ now exists [] | ].
  cbn [lstrip_quote]. destruct (c =? QUOTE).
  - exists (c :: p). cbn [app]. now rewrite <- IH.
  - now exists [].
Qed.

Lemma strip_quote_infix (l : pystr) : exists p q, l = p ++ strip_quote l ++ q.
Proof.
  destruct (lstrip_quote_suffix l) as [p Hp].
  destruct (lstrip_quote_suffix (rev (lstrip_quote l))) as [q Hq].
  exists p, (rev q). unfold strip_quote, rstrip_quote.
  rewrite <- rev_app_distr, <- Hq, rev_involutive. exact Hp.
Qed.

Lemma extract_sender_name_whole c rest :
  LT ∉ rest -> extract_sender_name (c :: rest) = c :: rest.
Proof.
  intros Hlt. unfold extract_sender_name, match_sender.
  destruct (c =? NEWLINE); [ reflexivity | ].
  now rewrite sender_group_without.
Qed.

(** X5. [extract_sender_name] changes nothing in its own results: applied
    to the name it returned, it returns that name again. *)
Theorem extract_sender_name_idempotent sender :
  extract_sender_name (extract_sender_name sender) = extract_sender_name sender.
Proof.
  unfold extract_sender_name at 2 3.
  destruct (match_sender sender) as [ g | ] eqn:Hm.
  2: { unfold extract_sender_name. now rewrite Hm. }
  unfold match_sender in Hm. destruct sender as [ | c rest ]; [ discriminate | ].
  destruct (c =? NEWLINE); [ discriminate | ].
  apply sender_group_shape in Hm as (x & -> & Hx).
  destruct (strip_quote_infix ([c] ++ x)) as (p & q & Hpq).
  destruct (strip_quote ([c] ++ x)) as [ | c' r ]; [ reflexivity | ].
  apply extract_sender_name_whole.
  destruct p as [ | a p ]; cbn [app] in Hpq; injection Hpq as _ Hpq; subst x.
  - apply not_elem_of_app in Hx. tauto.
  - apply not_elem_of_app in Hx as [_ Hx].
    apply not_elem_of_cons in Hx as [_ Hx].
    apply not_elem_of_app in Hx. tauto.
Qed.

(** ** URLs *)

Lemma strip_prefix_spec pre : forall s r,
  strip_prefix pre s = Some r -> s = pre ++ r.
Proof.
  induction pre as [ | a pre IH ]; intros s r H.
  - simpl in H. now injection H as <-.
  - destruct s as [ | c s ]; [ discriminate | ]. cbn [strip_prefix] in H.
    destruct (N.eqb_spec a c) as [ <- | _ ]; [ | discriminate ].
    cbn [app]. f_equal. now apply IH.
Qed.

Lemma take_while_spec p (s : pystr) :
  exists rest,
    s = take_while p s ++ rest
    /\ forallb p (take_while p s) = true
    /\ match rest with [] => True | c :: _ => p c = false end.
Proof.
  induction s as [ | c s (rest & Hs & Hall & Hnext) ].
  - now exists [].
  - cbn [take_while]. destruct (p c) eqn:Hc.
    + exists rest. cbn [app forallb]. rewrite Hc, Hall. now rewrite <- Hs.
    + now exists (c :: s).
Qed.

Lemma url_tail_spec s t :
  url_tail s = Some t ->
  exists body rest,
    t = py "://" ++ body /\ body <> [] /\ forallb url_char body = true
    /\ s = t ++ rest /\ gap_ok rest.
Proof.
  unfold url_tail. intros H.
  destruct (strip_prefix (py "://") s) as [ r | ] eqn:Hp; [ | discriminate ].
  apply strip_prefix_spec in Hp.
  destruct (take_while_spec url_char r) as (rest & Hr & Hall & Hnext).
  destruct (take_while url_char r) as [ | b body ] eqn:Htw; [ discriminate | ].
  injection H as <-. exists (b :: body), rest.
  split; [ reflexivity | ]. split; [ discriminate | ]. split; [ exact Hall | ].
  split; [ | exact Hnext ].
  rewrite Hp, Hr. reflexivity.
Qed.

Lemma match_url_spec s u :
  match_url s = Some u ->
  url_shape u /\ exists rest, s = u ++ rest /\ gap_ok rest.
Proof.
  unfold match_url. intros H.
  destruct (strip_prefix (py "http") s) as [ r | ] eqn:Hp; [ | discriminate ].
  apply strip_prefix_spec in Hp.
  assert (Hplain : forall t, url_tail r = Some t -> u = py "http" ++ t ->
                   url_shape u /\ exists rest, s = u ++ rest /\ gap_ok rest).
  { intros t Ht ->.
    apply url_tail_spec in Ht as (body & rest & -> & Hne & Hall & -> & Hgap).
    split; [ exists body; auto | ].
    exists rest. split; [ | exact Hgap ]. rewrite Hp. reflexivity. }
  assert (Hfrom : match url_tail r with
                  | Some t => Some (py "http" ++ t)
                  | None => None
                  end = Some u ->
                  url_shape u /\ exists rest, s = u ++ rest /\ gap_ok rest).
  { destruct (url_tail r) as [ t | ]; [ | discriminate ].
    intros [= <-]. now apply (Hplain t). }
  destruct r as [ | c r' ]; [ exact (Hfrom H) | ].
  destruct (N.eqb_spec c 115) as [ -> | _ ]; [ | exact (Hfrom H) ].
  destruct (url_tail r') as [ t | ] eqn:Ht; [ | exact (Hfrom H) ].
  injection H as <-.
  apply url_tail_spec in Ht as (body & rest & -> & Hne & Hall & -> & Hgap).
  split; [ exists body; auto | ].
  exists rest. split; [ | exact Hgap ]. rewrite Hp. reflexivity.
Qed.

Lemma url_shape_length u : url_shape u -> (8 <= length u)%nat.
Proof.
  intros (body & [ -> | -> ] & Hne & _);
    destruct body; try (now elim Hne); rewrite length_app; simpl; lia.
Qed.

Lemma url_shape_chars u : url_shape u -> forallb url_char u = true.
Proof.
  intros (body & [ -> | -> ] & _ & Hall); rewrite forallb_app, Hall; reflexivity.
Qed.

Lemma findall_url_shape s : forall skip, Forall url_shape (findall_url skip s).
Proof.
  induction s as [ | c s IH ]; intros skip; [ constructor | ].
  cbn [findall_url]. destruct skip as [ | k ]; [ | apply IH ].
  destruct (match_url (c :: s)) as [ u | ] eqn:Hm; [ | apply IH ].
  constructor; [ | apply IH ]. now apply match_url_spec in Hm.
Qed.

Lemma findall_url_weave s : forall skip,
  exists g0 gaps,
    length gaps = length (findall_url skip s)
    /\ drop skip s = g0 ++ weave (findall_url skip s) gaps
    /\ Forall gap_ok gaps.
Proof.
  induction s as [ | c s IH ]; intros skip.
  - exists [], []. rewrite drop_nil. repeat split. constructor.
  - cbn [findall_url]. destruct skip as [ | k ]; [ | apply IH ].
    destruct (match_url (c :: s)) as [ u | ] eqn:Hm.
    + apply match_url_spec in Hm as (Hshape & rest & Hs & Hgap).
      pose proof (url_shape_length u Hshape) as Hlen.
      destruct u as [ | c' u' ]; [ simpl in Hlen; lia | ].
      injection Hs as <- ->.
      destruct (IH (length (c :: u') - 1)%nat) as (g0 & gaps & Hl & Hd & Hok).
      assert (Hrest : drop (length (c :: u') - 1) (u' ++ rest) = rest).
      { replace (length (c :: u') - 1)%nat with (length u') by (simpl; lia).
        apply drop_app_length. }
      rewrite Hrest in Hd.
      exists [], (g0 :: gaps). cbn [length weave app drop].
      rewrite Hl. split; [ reflexivity | ]. split.
      * do 2 f_equal. exact Hd.
      * constructor; [ | exact Hok ].
        destruct g0 as [ | d g0 ]; [ exact I | ].
        rewrite Hd in Hgap. exact Hgap.
    + destruct (IH 0%nat) as (g0 & gaps & Hl & Hd & Hok).
      exists (c :: g0), gaps. cbn [drop] in Hd. cbn [drop app].
      split; [ exact Hl | ]. split; [ f_equal; exact Hd | exact Hok ].
Qed.

Lemma weave_length urls : forall gaps,
  length gaps = length urls ->
  (list_sum (map (@length N) urls) <= length (weave urls gaps))%nat.
Proof.
  induction urls as [ | u urls IH ]; intros gaps Hl; [ simpl; lia | ].
  destruct gaps as [ | g gaps ]; [ discriminate | ].
  injection Hl as Hl. specialize (IH gaps Hl).
  unfold list_sum in *. cbn [weave map fold_right]. rewrite !length_app. lia.
Qed.

(** X6. Every URL that [extract_urls] returns is [http://] or [https://]
    followed by at least one character, and none of its characters is
    white space, an angle bracket, a double quote, a brace, a bar, a
    backslash, a caret, a back-quote or a square bracket. *)
Theorem extract_urls_shape content :
  Forall (fun u =>
            (exists body,
               (u = py "http://" ++ body \/ u = py "https://" ++ body)
               /\ body <> [])
            /\ forallb url_char u = true)
         (extract_urls content).
Proof.
  unfold extract_urls.
  eapply Forall_impl; [ apply findall_url_shape | ].
  intros u Hu. split; [ | now apply url_shape_chars ].
  destruct Hu as (body & Hor & Hne & _). now exists body.
Qed.

(** X7. The URLs of [extract_urls] stand in the content in the order
    returned, one after the other without overlap: the content is some
    text, then each URL followed by its gap. Each match is as long as it
    can be: the gap after a URL is empty or starts with a character that
    a URL cannot hold. *)
Theorem extract_urls_in_order content :
  exists before gaps,
    length gaps = length (extract_urls content)
    /\ content = before ++ weave (extract_urls content) gaps
    /\ Forall gap_ok gaps.
Proof.
  unfold extract_urls.
  destruct (findall_url_weave content 0) as (g0 & gaps & Hl & Hd & Hok).
  now exists g0, gaps.
Qed.

(** ** Metadata, once more *)

Lemma count_tokens_bound s : forall in_token,
  (2 * count_tokens in_token s <= length s + (if in_token then 0 else 1))%nat.
Proof.
  induction s as [ | c s IH ]; intros in_token.
  - simpl. destruct in_token; lia.
  - cbn [count_tokens length]. destruct (isspace c).
    + specialize (IH false). cbv iota in IH. destruct in_token; lia.
    + specialize (IH true). cbv iota in IH. destruct in_token; lia.
Qed.

Lemma url_lengths urls :
  Forall url_shape urls ->
  (8 * length urls <= list_sum (map (@length N) urls))%nat.
Proof.
  induction 1 as [ | u urls Hu _ IH ]; [ simpl; lia | ].
  apply url_shape_length in Hu. unfold list_sum in *.
  cbn [map fold_right length]. lia.
Qed.

Lemma extract_urls_count content :
  (8 * length (extract_urls content) <= length content)%nat.
Proof.
  unfold extract_urls.
  destruct (findall_url_weave content 0) as (g0 & gaps & Hl & Hd & _).
  pose proof (url_lengths _ (findall_url_shape content 0)) as H8.
  pose proof (weave_length _ _ Hl) as Hw.
  rewrite drop_0 in Hd. apply (f_equal (@length N)) in Hd.
  rewrite length_app in Hd. lia.
Qed.

(** X8. The counts of [calculate_metadata] bound each other: a body of [n]
    characters has at most [(n + 1) / 2] words and at most [n / 8] URLs,
    and the reading time is 1 up to 399 words and the number of words
    divided by 200, rounded down, from 400 words on. *)
Theorem calculate_metadata_bounds (parsed_email : gmap pystr pystr) :
  let m := calculate_metadata parsed_email in
  (2 * word_count m <= char_count m + 1
   /\ 8 * url_count m <= char_count m
   /\ estimated_read_time_minutes m
      = (if word_count m <? 400 then 1 else word_count m / 200)
   /\ 200 * estimated_read_time_minutes m <= Z.max 200 (word_count m))%Z.
Proof.
  intros m. subst m. unfold calculate_metadata.
  cbn [word_count char_count url_count estimated_read_time_minutes].
  set (body := default [] (parsed_email !! py "body")).
  pose proof (count_tokens_bound body false) as Hw. cbv iota in Hw.
  pose proof (extract_urls_count body) as Hu.
  rewrite split_length. unfold whitespace_delimited_tokens.
  destruct (Z.ltb_spec (Z.of_nat (count_tokens false body)) 400); lia.
Qed.

(** ** The assembled record, field by field *)

Section Record_fields.

Context `{Out : Stdout} `{Ext : Externals}.

(** A record that [parse_message] returns is the one assembled from the
    body that [extract_body] returned. *)
Lemma parse_message_returns message html_converter record out html_converter' :
  parse_message message html_converter = ((Returns record, out), html_converter') ->
  exists body date out0,
    extract_body (payload_of message) html_converter
    = ((Returns body, out0), html_converter')
    /\ record = record_of message body date.
Proof.
  rewrite parse_message_eq.
  destruct (extract_body (payload_of message) html_converter)
    as [[[ body | e ] out0] s']; [ | discriminate ].
  destruct (if truthy (date_of message) then _ else _) as [[ parsed | e ] out'];
    [ | discriminate ].
  intros [= <- _ <-]. now eexists body, _, out0.
Qed.

End Record_fields.

(** X9. A record that [parse_message] returns carries the extracted body
    and the identifiers of the message: its [body] is what [extract_body]
    returned for the payload, from the same state of the converter, [id],
    [thread_id] and [snippet] are those of the message (empty when
    absent), and the metadata computed from the record counts that body. *)
Theorem parse_message_body_and_ids `{Out : Stdout} `{Ext : Externals}
    message html_converter record out html_converter' :
  parse_message message html_converter = ((Returns record, out), html_converter') ->
  exists body out0,
    extract_body (default empty_part (message_payload message)) html_converter
    = ((Returns body, out0), html_converter')
    /\ record !! py "body" = Some body
    /\ record !! py "id" = Some (default [] (message_id message))
    /\ record !! py "thread_id" = Some (default [] (message_threadId message))
    /\ record !! py "snippet" = Some (default [] (message_snippet message))
    /\ char_count (calculate_metadata record) = Z.of_nat (length body)
    /\ word_count (calculate_metadata record)
       = Z.of_nat (whitespace_delimited_tokens body).
Proof.
  intros (body & date & out0 & Hb & ->)%parse_message_returns.
  exists body, out0. split; [ exact Hb | ].
  assert (Hbody : record_of message body date !! py "body" = Some body)
    by reflexivity.
  repeat split; try reflexivity;
    unfold calculate_metadata; cbn [char_count word_count]; rewrite Hbody;
    cbn [default from_option id]; rewrite ?split_length; reflexivity.
Qed.

Lemma parse_message_body_and_ids_witness :
  let message :=
    mkMessage (Some (py "m1")) (Some (py "t1"))
      (Some (mkPart (Some (py "text/plain")) None
               (Some (mkBody (Some (py "aGkgeW91")))) None))
      None in
  exists record,
    parse_message (Out := utf8_stdout) (Ext := transparent_libraries) message tt
    = ((Returns record, []), tt)
    /\ record !! py "body" = Some (py "hi you")
    /\ record !! py "id" = Some (py "m1")
    /\ word_count (calculate_metadata record) = 2%Z.
Proof.
  intros message.
  eexists. split; [ reflexivity | ].
  match goal with
  | |- ?record !! _ = _ /\ _ =>
      destruct (parse_message_body_and_ids
                  (Out := utf8_stdout) (Ext := transparent_libraries)
                  message tt record [] tt eq_refl)
        as (body & out0 & Hb & Hbody & Hid & _ & _ & _ & Hwords)
  end.
  injection Hb as <- <-.
  split; [ exact Hbody | ]. split; [ exact Hid | exact Hwords ].
Defined.

(** X10. Subject, sender and recipient of a record that [parse_message]
    returns come from the headers of the payload, by lower-cased name: each
    is the value of the last header named [subject], [from] or [to] in any
    case, also when that value is empty, and the default ([No Subject],
    [Unknown], the empty string) only when the payload has no such
    header. *)
Theorem parse_message_header_fields `{Out : Stdout} `{Ext : Externals}
    message html_converter record out html_converter' :
  let headers :=
    default [] (part_headers (default empty_part (message_payload message))) in
  let field key :=
    (fun h => default [] (header_value h)) <$>
      last (filter (fun h => lower (default [] (header_name h)) = key) headers) in
  parse_message message html_converter = ((Returns record, out), html_converter') ->
  record !! py "subject" = Some (default (py "No Subject") (field (py "subject")))
  /\ record !! py "sender" = Some (default (py "Unknown") (field (py "from")))
  /\ record !! py "to" = Some (default [] (field (py "to"))).
Proof.
  intros headers field (body & date & out0 & _ & ->)%parse_message_returns.
  assert (Hfield : forall key,
            extract_headers (headers_of message) !! key = field key)
    by (intros key; apply extract_headers_lookup).
  rewrite <- !Hfield. repeat split; reflexivity.
Qed.

Lemma parse_message_header_fields_witness :
  let message :=
    mkMessage None None
      (Some (mkPart None
               (Some [ mkHeader (Some (py "Subject")) (Some (py "A"));
                       mkHeader (Some (py "FROM")) (Some []);
                       mkHeader (Some (py "subject")) (Some (py "B")) ])
               None None))
      None in
  exists record,
    parse_message (Out := utf8_stdout) (Ext := transparent_libraries) message tt
    = ((Returns record, []), tt)
    /\ record !! py "subject" = Some (py "B")
    /\ record !! py "sender" = Some []
    /\ record !! py "to" = Some [].
Proof.
  intros message.
  eexists. split; [ reflexivity | ].
  match goal with
  | |- ?record !! _ = _ /\ _ =>
      exact (parse_message_header_fields
               (Out := utf8_stdout) (Ext := transparent_libraries)
               message tt record [] tt eq_refl)
  end.
Defined.

(** X11. The [date] of the record, and what the date step does to
    [parse_message]. When the body extraction raises, so does
    [parse_message]. Otherwise: with no [date] header, or an empty one,
    the date is the empty string and the date parser is not called; when
    the parser returns, the date is the ISO form of what it returned; when
    it raises and the line for the fault is printed, the date is the empty
    string and that line comes after the lines of the body extraction;
    when it raises and [sys.stdout] refuses the line, [parse_message]
    raises the exception of the stream. Nothing else is printed, and the
    date step leaves the converter as the body extraction left it. *)
Theorem parse_message_date `{Out : Stdout} `{Ext : Externals}
    message html_converter :
  let payload := default empty_part (message_payload message) in
  let date_str :=
    default [] (extract_headers (default [] (part_headers payload)) !! py "date") in
  match extract_body payload html_converter with
  | ((Raises e, out), html_converter') =>
      parse_message message html_converter = ((Raises e, out), html_converter')
  | ((Returns body, out), html_converter') =>
      if truthy date_str then
        match parsedate_to_datetime date_str with
        | Returns d =>
            exists record,
              parse_message message html_converter
              = ((Returns record, out), html_converter')
              /\ record !! py "date" = Some (isoformat d)
        | Raises e =>
            match stdout_write (line_of (ErrorParsingDate date_str e)) with
            | Returns _ =>
                exists record,
                  parse_message message html_converter
                  = ((Returns record, out ++ [ErrorParsingDate date_str e]),
                     html_converter')
                  /\ record !! py "date" = Some []
            | Raises e' =>
                parse_message message html_converter
                = ((Raises e', out), html_converter')
            end
        end
      else
        exists record,
          parse_message message html_converter
          = ((Returns record, out), html_converter')
          /\ record !! py "date" = Some []
  end.
Proof.
  intros payload date_str. rewrite parse_message_eq.
  change (payload_of message) with payload.
  change (date_of message) with date_str.
  destruct (extract_body payload html_converter) as [[[ body | e ] out] s'];
    [ | reflexivity ].
  destruct (truthy date_str).
  - rewrite parse_date_eq.
    destruct (parsedate_to_datetime date_str) as [ d | e ].
    + rewrite app_nil_r. now eexists.
    + destruct (stdout_write _).
      * now eexists.
      * now rewrite app_nil_r.
  - cbn [ret]. rewrite app_nil_r. now eexists.
Qed.

(** ** Header keys *)

Lemma ascii_lower_not_upper c : is_upper (ascii_lower c) = false.
Proof.
  unfold ascii_lower, is_upper.
  destruct ((65 <=? c) && (c <=? 90)) eqn:E.
  - bool_to_prop E. apply andb_false_iff. right. apply N.leb_gt. lia.
  - exact E.
Qed.

Lemma map_ascii_lower_no_upper (s : pystr) :
  existsb is_upper (map ascii_lower s) = false.
Proof.
  induction s as [ | c s IH ]; [ reflexivity | ].
  cbn [map existsb]. now rewrite ascii_lower_not_upper, IH.
Qed.

(** X12. The keys of [extract_headers] hold no upper-case letter when the
    header names are ASCII: a lookup under a key with an upper-case ASCII
    letter, such as [Subject], finds nothing, whatever the headers are. *)
Theorem extract_headers_lower_case_keys `{Ext : Externals} headers k :
  Forall (fun h => forallb is_ascii (default [] (header_name h)) = true) headers ->
  existsb is_upper k = true ->
  extract_headers headers !! k = None.
Proof.
  intros Hascii Hk.
  destruct (extract_headers headers !! k) as [ v | ] eqn:Hv; [ | reflexivity ].
  exfalso.
  assert (Hin : k ∈ dom (extract_headers headers))
    by (apply elem_of_dom; now exists v).
  rewrite extract_headers_keys in Hin.
  apply elem_of_list_to_set, list_elem_of_fmap in Hin as (h & -> & Hh).
  rewrite Forall_forall in Hascii. specialize (Hascii h Hh).
  unfold normal_name, lower in Hk. rewrite Hascii in Hk.
  rewrite map_ascii_lower_no_upper in Hk. discriminate.
Qed.

Lemma extract_headers_lower_case_keys_witness :
  extract_headers (Ext := transparent_libraries)
    [ mkHeader (Some (py "Subject")) (Some (py "AI Weekly")) ] !! py "Subject"
  = None
  /\ extract_headers (Ext := transparent_libraries)
       [ mkHeader (Some (py "Subject")) (Some (py "AI Weekly")) ] !! py "subject"
     = Some (py "AI Weekly").
Proof.
  split; [ | reflexivity ].
  apply (extract_headers_lower_case_keys (Ext := transparent_libraries)).
  - repeat constructor.
  - reflexivity.
Defined.

(** ** The decoded text *)

Ltac solve_scalar :=
  unfold is_scalar;
  rewrite ?orb_true_iff, ?andb_true_iff, ?N.ltb_lt, ?N.leb_le; lia.

Lemma utf8_first_ok b : utf8_step_ok (utf8_first b).
Proof.
  unfold utf8_first. repeat resolve_test;
    cbn [utf8_step_ok utf8_state_ok]; unfold scalar_range;
    try exact I; try solve_scalar; lia.
Qed.

Lemma utf8_next_ok st b : utf8_state_ok st -> utf8_step_ok (utf8_next st b).
Proof.
  destruct st as [ | need acc lo hi ]; [ intros _; apply utf8_first_ok | ].
  cbn [utf8_state_ok utf8_next]. intros (Hlo & Hlh & Hhi & Hrange).
  destruct ((lo <=? b) && (b <=? hi)) eqn:E; [ | apply utf8_first_ok ].
  bool_to_prop E.
  destruct need as [ | [ | [ | [ | need ] ] ] ]; try contradiction;
    cbn [utf8_step_ok utf8_state_ok]; unfold scalar_range in *;
    try solve_scalar; lia.
Qed.

Lemma utf8_run_scalar data : forall st,
  utf8_state_ok st -> forallb is_scalar (utf8_run st data) = true.
Proof.
  induction data as [ | b data IH ]; intros st Hst; [ reflexivity | ].
  cbn [utf8_run]. pose proof (utf8_next_ok st b Hst) as Hstep.
  destruct (utf8_next st b) as [ c | st' ]; cbn [utf8_step_ok] in Hstep.
  - cbn [forallb]. rewrite Hstep. now apply IH.
  - now apply IH.
Qed.

Lemma utf8_run_length data : forall st,
  (length (utf8_run st data) <= length data)%nat.
Proof.
  induction data as [ | b data IH ]; intros st; [ reflexivity | ].
  cbn [utf8_run]. destruct (utf8_next st b) as [ c | st' ].
  - specialize (IH Idle). simpl. lia.
  - specialize (IH st'). simpl. lia.
Qed.

Lemma utf8_encode_scalar t :
  forallb is_scalar t = true -> exists b, utf8_encode t = Some b.
Proof.
  induction t as [ | c t IH ]; [ now exists [] | ].
  cbn [forallb]. intros [Hc Ht]%andb_prop.
  destruct (IH Ht) as [b Hb]. cbn [utf8_encode]. rewrite Hc, Hb. eauto.
Qed.

Lemma a2b_loop_length ascii_data : forall quad_pos leftchar pads bin_data out,
  a2b_loop ascii_data quad_pos leftchar pads bin_data = Returns out ->
  (4 * length out
   <= 4 * length bin_data + 3 * length ascii_data + quad_credit quad_pos)%nat.
Proof.
  induction ascii_data as [ | ch rest IH ];
    intros quad_pos leftchar pads bin_data out H.
  - destruct quad_pos as [ | [ | quad_pos ] ]; try discriminate.
    injection H as <-. simpl. lia.
  - cbn [a2b_loop] in H. cbn [length].
    destruct (ch =? BASE64_PAD).
    + destruct (2 <=? quad_pos)%nat.
      * destruct (4 <=? _).
        -- injection H as <-. lia.
        -- apply IH in H. lia.
      * apply IH in H. lia.
    + destruct (table_a2b_base64 ch).
      * destruct quad_pos as [ | [ | [ | quad_pos ] ] ];
          apply IH in H; rewrite ?length_app in H;
          cbn [quad_credit length] in *; lia.
      * apply IH in H. lia.
Qed.

Lemma urlsafe_b64decode_length s b :
  urlsafe_b64decode s = Returns b -> (4 * length b <= 3 * length s)%nat.
Proof.
  unfold urlsafe_b64decode, a2b_base64.
  destruct (forallb is_ascii s); [ | discriminate ].
  intros H%a2b_loop_length. rewrite length_map in H. simpl in H. lia.
Qed.

(** X13. The text of [decode_body] is always well-formed Unicode: it holds
    only scalar values (no surrogate, nothing above U+10FFFF), so it can be
    encoded as UTF-8 again, and decoding the URL-safe base64 of that
    encoding gives the same text, with no diagnostic. *)
Theorem decode_body_text_is_stable `{Out : Stdout} encoded_body :
  exists text out b,
    decode_body encoded_body = (Returns text, out)
    /\ forallb is_scalar text = true
    /\ utf8_encode text = Some b
    /\ decode_body (urlsafe_b64encode b) = (Returns text, []).
Proof.
  assert (Hstable : forall text, forallb is_scalar text = true ->
            exists b, utf8_encode text = Some b
                      /\ decode_body (urlsafe_b64encode b) = (Returns text, [])).
  { intros text Hs. destruct (utf8_encode_scalar text Hs) as [b Hb].
    exists b. split; [ exact Hb | ].
    rewrite (decode_body_decodes _ b).
    - now rewrite (utf8_decode_encode text b).
    - apply urlsafe_b64decode_encode. now apply (utf8_encode_octets text). }
  destruct (urlsafe_b64decode encoded_body) as [ bytes | e ] eqn:Hd.
  - assert (Hs : forallb is_scalar (utf8_decode_ignore bytes) = true)
      by now apply utf8_run_scalar.
    destruct (Hstable _ Hs) as (b & Hb & Hrt).
    exists (utf8_decode_ignore bytes), [], b.
    now rewrite (decode_body_decodes _ bytes Hd).
  - destruct (Hstable [] eq_refl) as (b & Hb & Hrt).
    exists [], [ErrorDecodingBody e], b.
    now rewrite (decode_body_raises _ e Hd).
Qed.

(** X14. The text of [decode_body] is never longer than three quarters of
    the encoded string: four characters of the encoding give at most three
    octets, and an octet at most one character of text. *)
Theorem decode_body_length `{Out : Stdout} encoded_body :
  exists text out,
    decode_body encoded_body = (Returns text, out)
    /\ (4 * length text <= 3 * length encoded_body)%nat.
Proof.
  destruct (urlsafe_b64decode encoded_body) as [ bytes | e ] eqn:Hd.
  - exists (utf8_decode_ignore bytes), [].
    split; [ now apply decode_body_decodes | ].
    pose proof (urlsafe_b64decode_length _ _ Hd).
    pose proof (utf8_run_length bytes Idle). unfold utf8_decode_ignore. lia.
  - exists [], [ErrorDecodingBody e].
    split; [ now apply decode_body_raises | simpl; lia ].
Qed.

(** ** Nesting and joining *)

Lemma join_cons x (l : list pystr) :
  join SEP (x :: l) = match l with [] => x | _ :: _ => x ++ SEP ++ join SEP l end.
Proof. reflexivity. Qed.

Lemma join_app_nonempty (l1 l2 : list pystr) :
  l1 <> [] -> l2 <> [] ->
  join SEP (l1 ++ l2) = join SEP l1 ++ SEP ++ join SEP l2.
Proof.
  intros H1 H2. induction l1 as [ | x l1 IH ]; [ now elim H1 | ].
  destruct l1 as [ | y l1 ].
  - cbn [app]. rewrite join_cons. now destruct l2.
  - change ((x :: y :: l1) ++ l2) with (x :: ((y :: l1) ++ l2)).
    rewrite !join_cons. cbn [app]. rewrite <- !app_assoc.
    do 2 f_equal. now apply IH.
Qed.

Lemma join_truthy (l : list pystr) :
  Forall (fun t => truthy t = true) l -> truthy (join SEP l) = negb (bool_decide (l = [])).
Proof.
  intros Hl. destruct Hl as [ | x l Hx Hl ]; [ reflexivity | ].
  rewrite join_cons. destruct x as [ | c x ]; [ discriminate | ].
  now destruct l.
Qed.

Lemma filter_truthy_all (l : list pystr) :
  Forall (fun t => truthy t = true) (List.filter truthy l).
Proof.
  apply Forall_forall. intros t Ht. apply list_elem_of_In in Ht.
  now apply List.filter_In in Ht.
Qed.

Lemma join_cons_congr b (l1 l2 : list pystr) :
  l1 <> [] -> l2 <> [] -> join SEP l1 = join SEP l2 ->
  join SEP (b :: l1) = join SEP (b :: l2).
Proof.
  intros H1 H2 H. rewrite !join_cons.
  destruct l1; [ now elim H1 | ]. destruct l2; [ now elim H2 | ].
  now rewrite H.
Qed.

(** A joined list stands in a list like its elements do. *)
Lemma join_splice (inner before after : list pystr) :
  Forall (fun t => truthy t = true) inner ->
  join SEP (before ++ List.filter truthy [join SEP inner] ++ after)
  = join SEP (before ++ inner ++ after).
Proof.
  intros Hin.
  assert (Hone : List.filter truthy [join SEP inner]
                 = if bool_decide (inner = []) then [] else [join SEP inner]).
  { cbn [List.filter]. rewrite (join_truthy inner Hin).
    now destruct (bool_decide (inner = [])). }
  rewrite Hone. clear Hone.
  destruct inner as [ | x inner ]; [ reflexivity | ].
  rewrite bool_decide_eq_false_2 by discriminate.
  induction before as [ | b before IH ].
  - cbn [app]. destruct after as [ | a after ].
    + now rewrite !app_nil_r.
    + change (join SEP (join SEP (x :: inner) :: a :: after))
        with (join SEP (x :: inner) ++ SEP ++ join SEP (a :: after)).
      symmetry. apply (join_app_nonempty (x :: inner) (a :: after)); discriminate.
  - change ((b :: before) ++ [join SEP (x :: inner)] ++ after)
      with (b :: (before ++ [join SEP (x :: inner)] ++ after)).
    change ((b :: before) ++ (x :: inner) ++ after)
      with (b :: (before ++ (x :: inner) ++ after)).
    apply join_cons_congr; [ | | exact IH ];
      intros [_ H]%app_eq_nil; discriminate.
Qed.

Section Nesting.

Context `{Out : Stdout} `{Ext : Externals}.

Lemma plain_leaf_yield t b html_converter :
  utf8_encode t = Some b ->
  yield (plain_leaf (urlsafe_b64encode b)) html_converter
  = ((Returns t, []), html_converter).
Proof.
  intros Hb. unfold yield, plain_leaf. rewrite for_part_leaf.
  change (is_text_type (Some (py "text/plain"))) with true.
  change (pystr_eqb (default [] (Some (py "text/plain"))) (py "text/html"))
    with false.
  cbv iota. rewrite (decode_body_decodes _ b).
  - now rewrite (utf8_decode_encode t b).
  - apply urlsafe_b64decode_encode. now apply (utf8_encode_octets t).
Qed.

Lemma in_turn_plain_leaves texts encodings html_converter :
  Forall2 (fun t b => utf8_encode t = Some b) texts encodings ->
  in_turn yield (map (fun b => plain_leaf (urlsafe_b64encode b)) encodings)
    html_converter
  = ((Returns texts, []), html_converter).
Proof.
  induction 1 as [ | t b texts encodings Hb _ IH ]; [ reflexivity | ].
  cbn [map in_turn].
  rewrite (mbind_cong _ (mret t) _ _ (plain_leaf_yield t b _ Hb)).
  rewrite mbind_mret_l.
  rewrite (mbind_cong _ (mret texts) _ _ IH).
  now rewrite mbind_mret_l.
Qed.

End Nesting.

(** X15. Nesting does not show in the extraction: a container in a list of
    parts gives what its children give when they stand in its place, the
    same text, the same diagnostics, the same exception and the same
    state of the converter, whatever its own mime type and body are. *)
Theorem extract_from_parts_flattens `{Out : Stdout} `{Ext : Externals}
    mime hdrs body sub before after html_converter :
  _extract_from_parts (before ++ mkPart mime hdrs body (Some sub) :: after)
    html_converter
  = _extract_from_parts (before ++ sub ++ after) html_converter.
Proof.
  rewrite !_extract_from_parts_eq.
  rewrite (mbind_cong _ _ _ _ (in_turn_app yield before (_ :: after) _)).
  rewrite (mbind_cong _ _ _ _ (in_turn_app yield before (sub ++ after) _)).
  rewrite !mbind_assoc. apply mbind_ext. intros ys1 s1.
  rewrite !mbind_assoc.
  rewrite (mbind_cong _ _ _ _ (in_turn_app yield sub after _)).
  cbn [in_turn]. rewrite !mbind_assoc.
  rewrite (mbind_cong _ _ _ _ (yield_container mime hdrs body sub _)).
  rewrite (mbind_cong _ _ _ _ (_extract_from_parts_eq sub _)).
  rewrite !mbind_assoc. apply mbind_ext. intros inner s2.
  rewrite mbind_mret_l, !mbind_assoc. apply mbind_ext. intros ys2 s3.
  rewrite !mbind_mret_l. f_equal.
  rewrite !List.filter_app.
  change (join SEP (List.filter truthy inner) :: ys2)
    with ([join SEP (List.filter truthy inner)] ++ ys2).
  rewrite List.filter_app. apply join_splice, filter_truthy_all.
Qed.

(** X16. The extraction of a list of parts is empty exactly when no part
    gives text. When the parts are handled in turn without an exception,
    the extraction returns, with their lines and the converter as they
    leave it, a string that is not empty if and only if some part yields a
    string that is not empty; when a part raises, the extraction raises
    the same exception. *)
Theorem extract_from_parts_empty `{Out : Stdout} `{Ext : Externals}
    parts html_converter :
  match in_turn yield parts html_converter with
  | ((Returns yields, out), html_converter') =>
      exists text,
        _extract_from_parts parts html_converter
        = ((Returns text, out), html_converter')
        /\ truthy text = existsb truthy yields
  | ((Raises e, out), html_converter') =>
      _extract_from_parts parts html_converter
      = ((Raises e, out), html_converter')
  end.
Proof.
  rewrite _extract_from_parts_eq. unfold mbind.
  destruct (in_turn yield parts html_converter) as [[[ yields | e ] out] s'];
    [ | reflexivity ].
  cbn [mret ret]. eexists. split; [ now rewrite app_nil_r | ].
  rewrite join_truthy by apply filter_truthy_all.
  induction yields as [ | y yields IH ]; [ reflexivity | ].
  cbn [List.filter existsb]. destruct (truthy y); [ reflexivity | ].
  exact IH.
Qed.

(** X17. Texts that are encoded into [text/plain] leaves come back: for
    texts of Unicode scalar values, the list of the leaves that hold the
    URL-safe base64 of their UTF-8 encodings extracts to the texts that
    are not empty, joined by two newlines, with no diagnostic and without
    a call of the converter; and a payload whose direct body data is the
    encoding of a text that is not empty extracts to that text, whatever
    its mime type and parts. *)
Theorem plain_text_round_trip `{Out : Stdout} `{Ext : Externals} :
  (forall texts encodings html_converter,
     Forall2 (fun t b => utf8_encode t = Some b) texts encodings ->
     _extract_from_parts (map (fun b => plain_leaf (urlsafe_b64encode b)) encodings)
       html_converter
     = ((Returns (join SEP (List.filter truthy texts)), []), html_converter))
  /\ (forall t b mime hdrs parts html_converter,
        utf8_encode t = Some b -> t <> [] ->
        extract_body
          (mkPart mime hdrs (Some (mkBody (Some (urlsafe_b64encode b)))) parts)
          html_converter
        = ((Returns t, []), html_converter)).
Proof.
  split.
  - intros texts encodings html_converter H. rewrite _extract_from_parts_eq.
    rewrite (mbind_cong _ (mret texts) _ _ (in_turn_plain_leaves _ _ _ H)).
    now rewrite mbind_mret_l.
  - intros t b mime hdrs parts html_converter Hb Hne.
    assert (Hdec : decode_body (urlsafe_b64encode b) = (Returns t, [])).
    { rewrite (decode_body_decodes _ b).
      - now rewrite (utf8_decode_encode t b).
      - apply urlsafe_b64decode_encode. now apply (utf8_encode_octets t). }
    destruct (urlsafe_b64encode b) as [ | c data ] eqn:He.
    + exfalso. vm_compute in Hdec. injection Hdec as <-. now elim Hne.
    + rewrite <- Hdec. reflexivity.
Qed.

Lemma plain_text_round_trip_witness :
  _extract_from_parts (Out := utf8_stdout) (Ext := transparent_libraries)
    [ plain_leaf (py "aMOp"); plain_leaf []; plain_leaf (py "5L2g") ] tt
  = ((Returns ([104; 233] ++ [NEWLINE; NEWLINE] ++ [20320]), []), tt)
  /\ extract_body (Out := utf8_stdout) (Ext := transparent_libraries)
       (mkPart None None (Some (mkBody (Some (py "aMOp")))) None) tt
     = ((Returns [104; 233], []), tt).
Proof.
  destruct (plain_text_round_trip (Out := utf8_stdout) (Ext := transparent_libraries))
    as [Hlist Htop].
  split.
  - apply (Hlist [[104; 233]; []; [20320]] [[104; 195; 169]; []; [228; 189; 160]]).
    repeat constructor.
  - apply (Htop [104; 233] [104; 195; 169]); [ reflexivity | discriminate ].
Defined.

(** * The fetcher *)

Section Fetching.

Context `{Out : Stdout} `{Svc : GmailService}.

Lemma build_date_query_eq days_back :
  build_date_query days_back
  = match minus_days now days_back with
    | Returns d => (Returns (py "after:" ++ strftime_ymd d), [Now])
    | Raises e => (Raises e, [Now])
    end.
Proof.
  unfold build_date_query, io_call, io_bind, io_ret.
  now destruct (minus_days now days_back).
Qed.

(** The guarded part of [fetch_messages]. *)
Lemma listing_eq request_params :
  io_try_except
    (let+ results :=
       io_call (ListExecute request_params) (list_execute request_params) in
     io_ret (default [] (results_messages results)))
    (fun e =>
       let+ _ :=
         io_print (ErrorFetchingMessages e)
           (py "Error fetching messages: " ++ exn_str e) in
       io_ret [])
  = listing request_params.
Proof.
  unfold listing, io_try_except, io_bind, io_call, io_ret, io_print.
  destruct (list_execute request_params) as [ results | e ]; [ reflexivity | ].
  now destruct (stdout_write _).
Qed.

Lemma fetch_messages_eq days_back max_results query label_ids :
  fetch_messages days_back max_results query label_ids
  = let+ q :=
      (match query with
       | None => build_date_query days_back
       | Some query =>
           if (days_back =? 0)%Z then io_ret query
           else
             let+ date_query := build_date_query days_back in
             io_ret (query ++ py " " ++ date_query)
       end) in
    listing (request_of q max_results label_ids).
Proof.
  unfold fetch_messages. cbv zeta.
  destruct (match query with None => _ | Some _ => _ end) as [[q | e] evs];
    [ | reflexivity ].
  unfold io_bind at 1 3. now rewrite listing_eq.
Qed.

Lemma fetch_messages_dated days_back max_results query label_ids d :
  minus_days now days_back = Returns d ->
  days_back <> 0%Z \/ query = None ->
  fetch_messages days_back max_results query label_ids
  = (fst (listing
            (request_of
               (match query with
                | None => py "after:" ++ strftime_ymd d
                | Some q => q ++ py " after:" ++ strftime_ymd d
                end)
               max_results label_ids)),
     Now :: snd (listing
                   (request_of
                      (match query with
                       | None => py "after:" ++ strftime_ymd d
                       | Some q => q ++ py " after:" ++ strftime_ymd d
                       end)
                      max_results label_ids))).
Proof.
  intros Hd Hneed. rewrite fetch_messages_eq, build_date_query_eq, Hd.
  destruct query as [ q | ].
  - destruct Hneed as [ Hnz | Hq ]; [ | discriminate ].
    apply Z.eqb_neq in Hnz. rewrite Hnz. unfold io_bind, io_ret.
    cbn [app].
    now destruct (listing _).
  - unfold io_bind. now destruct (listing _).
Qed.

Lemma fetch_messages_undated max_results q label_ids :
  fetch_messages 0 max_results (Some q) label_ids
  = listing (request_of q max_results label_ids).
Proof.
  rewrite fetch_messages_eq. cbn. now destruct (listing _).
Qed.

(** What a listing can do: return, or raise what [sys.stdout] raised on
    the line for the fault of the service. *)
Lemma listing_cases request_params :
  (exists messages events, listing request_params = (Returns messages, events))
  \/ (exists fault e,
         list_execute request_params = Raises fault
         /\ stdout_write (py "Error fetching messages: " ++ exn_str fault) = Raises e
         /\ listing request_params = (Raises e, [ListExecute request_params])).
Proof.
  unfold listing.
  destruct (list_execute request_params) as [ results | fault ];
    [ left; now eexists _, _ | ].
  destruct (stdout_write _) as [ [] | e ] eqn:Hw;
    [ left; now eexists _, _ | right; now exists fault, e ].
Qed.

(** The query that goes out, or the exception of the date computation. *)
Lemma query_step days_back query :
  let step :=
    match query with
    | None => build_date_query days_back
    | Some query =>
        if (days_back =? 0)%Z then io_ret query
        else
          let+ date_query := build_date_query days_back in
          io_ret (query ++ py " " ++ date_query)
    end in
  (exists q evs, step = (Returns q, evs))
  \/ (exists e, step = (Raises e, [Now]) /\ minus_days now days_back = Raises e).
Proof.
  destruct query as [ q | ]; cbv zeta.
  - destruct (days_back =? 0)%Z; [ left; now eexists _, _ | ].
    rewrite build_date_query_eq.
    destruct (minus_days now days_back) as [ d | e ];
      [ left; now eexists _, _ | right; now exists e ].
  - rewrite build_date_query_eq.
    destruct (minus_days now days_back) as [ d | e ];
      [ left; now eexists _, _ | right; now exists e ].
Qed.

End Fetching.

(** X18. The failures that leave [fetch_messages]. It raises in two cases
    only: the date computation raises, and then it has read the clock and
    sent no request; or the service raises on the request and [sys.stdout]
    refuses the line for that fault, and then it raises the exception of
    the stream, the request being the last thing it did. When the date
    can be computed and the lines for the faults of the service can be
    printed it returns; and when the service raises on every request, what
    it returns is the empty list, after printing the fault. *)
Theorem fetch_messages_failures `{Out : Stdout} `{Svc : GmailService}
    days_back max_results query label_ids :
  (forall e events,
     fetch_messages days_back max_results query label_ids = (Raises e, events) ->
     (minus_days now days_back = Raises e /\ events = [Now])
     \/ (exists request_params fault,
            list_execute request_params = Raises fault
            /\ stdout_write (py "Error fetching messages: " ++ exn_str fault)
               = Raises e
            /\ last events = Some (ListExecute request_params)))
  /\ (forall d,
        minus_days now days_back = Returns d ->
        (forall request_params fault,
           list_execute request_params = Raises fault ->
           stdout_write (py "Error fetching messages: " ++ exn_str fault)
           = Returns tt) ->
        exists messages events,
          fetch_messages days_back max_results query label_ids
          = (Returns messages, events))
  /\ ((forall request_params, exists e, list_execute request_params = Raises e) ->
      forall messages events,
        fetch_messages days_back max_results query label_ids
        = (Returns messages, events) ->
        messages = [] /\ exists e, last events = Some (ErrorFetchingMessages e)).
Proof.
  rewrite fetch_messages_eq.
  destruct (query_step days_back query) as [ (q & evs & Hs) | (e' & Hs & Hd) ];
    cbv zeta in Hs; rewrite Hs; unfold io_bind.
  - split; [ | split ].
    + intros e events H. right.
      destruct (listing_cases (request_of q max_results label_ids))
        as [ (m & evs' & Hl) | (fault & e0 & Hf & Hw & Hl) ];
        rewrite Hl in H; [ discriminate | ].
      injection H as <- <-.
      exists (request_of q max_results label_ids), fault.
      split; [ exact Hf | ]. split; [ exact Hw | ]. apply last_snoc.
    + intros d _ Hprint.
      destruct (listing_cases (request_of q max_results label_ids))
        as [ (m & evs' & Hl) | (fault & e0 & Hf & Hw & Hl) ].
      * rewrite Hl. now eexists _, _.
      * rewrite (Hprint _ _ Hf) in Hw. discriminate.
    + intros Hdown messages events H. unfold listing in H.
      destruct (Hdown (request_of q max_results label_ids)) as [e He].
      rewrite He in H. destruct (stdout_write _); [ | discriminate ].
      injection H as <- <-. split; [ reflexivity | ].
      exists e.
      change (evs ++ [ListExecute (request_of q max_results label_ids);
                      ErrorFetchingMessages e])
        with (evs ++ [ListExecute (request_of q max_results label_ids)]
                  ++ [ErrorFetchingMessages e]).
      now rewrite app_assoc, last_snoc.
  - split; [ | split ].
    + intros e events [= <- <-]. left. now split.
    + intros d Hd'. congruence.
    + intros _ messages events H. discriminate.
Qed.

Lemma fetch_messages_failures_witness :
  fetch_messages (Out := utf8_stdout) (Svc := offline_service) 7 50 None None
  = (Returns [],
     [ Now;
       ListExecute (request_of (py "after:2025/11/06") 50 None);
       ErrorFetchingMessages (LibraryError (py "offline")) ]).
Proof.
  destruct (fetch_messages_failures (Out := utf8_stdout) (Svc := offline_service)
              7 50 None None)
    as (Hraise & Hdate & Hdown).
  destruct (Hdate (-7)%Z eq_refl) as (messages & events & Heq).
  { intros request_params fault Hf. injection Hf as <-. reflexivity. }
  destruct (Hdown (fun _ => ex_intro _ _ eq_refl) messages events Heq) as [-> _].
  reflexivity.
Defined.

(** X19. The request that [fetch_messages] sends. With a custom query and
    [days_back] 0 the query goes out as it is and the clock is not read;
    otherwise the clock is read first and the query is the custom query, a
    space and [after:] with the date [days_back] days ago, or that date
    filter alone when no query was given. The user is always [me], and an
    empty list of labels is sent like no labels. *)
Theorem fetch_messages_request `{Out : Stdout} `{Svc : GmailService} :
  (forall max_results q label_ids,
     fetch_messages 0 max_results (Some q) label_ids
     = listing (request_of q max_results label_ids))
  /\ (forall days_back max_results query label_ids d,
        minus_days now days_back = Returns d ->
        days_back <> 0%Z \/ query = None ->
        let request_params :=
          request_of
            (match query with
             | None => py "after:" ++ strftime_ymd d
             | Some q => q ++ py " after:" ++ strftime_ymd d
             end)
            max_results label_ids in
        fetch_messages days_back max_results query label_ids
        = (fst (listing request_params), Now :: snd (listing request_params)))
  /\ (forall days_back max_results query,
        fetch_messages days_back max_results query (Some [])
        = fetch_messages days_back max_results query None)
  /\ (forall q max_results label_ids,
        req_userId (request_of q max_results label_ids) = py "me"
        /\ req_maxResults (request_of q max_results label_ids) = max_results
        /\ req_labelIds (request_of q max_results label_ids) <> Some []).
Proof.
  split; [ apply @fetch_messages_undated | ].
  split; [ intros; now apply fetch_messages_dated | ].
  split; [ reflexivity | ].
  intros q max_results label_ids. repeat split.
  now destruct label_ids as [ [ | l ls ] | ].
Qed.

Lemma fetch_messages_request_witness :
  fetch_messages (Out := utf8_stdout) (Svc := offline_service) 7 50
    (Some (py "label:news")) (Some [])
  = (Returns [],
     [ Now;
       ListExecute (request_of (py "label:news after:2025/11/06") 50 None);
       ErrorFetchingMessages (LibraryError (py "offline")) ]).
Proof.
  destruct (fetch_messages_request (Out := utf8_stdout) (Svc := offline_service))
    as (_ & Hdated & _ & _).
  rewrite (Hdated 7%Z 50%Z (Some (py "label:news")) (Some []) (-7)%Z eq_refl);
    [ reflexivity | left; discriminate ].
Defined.

(** X20. The three shortcuts send their own query through
    [fetch_messages], without labels: [is:unread], [from:] and the sender,
    [subject:] and the text, followed by a space and the date filter when
    [days_back] is not 0 and the date can be computed, and alone, without
    a reading of the clock, when [days_back] is 0. *)
Theorem fetch_shortcuts `{Out : Stdout} `{Svc : GmailService} max_results :
  (forall sender_email subject,
     fetch_unread_messages 0 max_results
     = listing (request_of (py "is:unread") max_results None)
     /\ fetch_from_sender sender_email 0 max_results
        = listing (request_of (py "from:" ++ sender_email) max_results None)
     /\ fetch_by_subject subject 0 max_results
        = listing (request_of (py "subject:" ++ subject) max_results None))
  /\ (forall days_back d sender_email subject,
        days_back <> 0%Z ->
        minus_days now days_back = Returns d ->
        let dated q := request_of (q ++ py " after:" ++ strftime_ymd d) max_results None in
        fetch_unread_messages days_back max_results
        = (fst (listing (dated (py "is:unread"))),
           Now :: snd (listing (dated (py "is:unread"))))
        /\ fetch_from_sender sender_email days_back max_results
           = (fst (listing (dated (py "from:" ++ sender_email))),
              Now :: snd (listing (dated (py "from:" ++ sender_email))))
        /\ fetch_by_subject subject days_back max_results
           = (fst (listing (dated (py "subject:" ++ subject))),
              Now :: snd (listing (dated (py "subject:" ++ subject))))).
Proof.
  split.
  - intros sender_email subject.
    unfold fetch_unread_messages, fetch_from_sender, fetch_by_subject.
    now rewrite !fetch_messages_undated.
  - intros days_back d sender_email subject Hnz Hd dated.
    unfold fetch_unread_messages, fetch_from_sender, fetch_by_subject, dated.
    repeat split;
      now rewrite (fetch_messages_dated days_back max_results _ None d Hd)
        by now left.
Qed.

Lemma fetch_shortcuts_witness :
  fetch_from_sender (Out := utf8_stdout) (Svc := offline_service) (py "a@b.c") 30 50
  = (Returns [],
     [ Now;
       ListExecute (request_of (py "from:a@b.c after:2025/11/06") 50 None);
       ErrorFetchingMessages (LibraryError (py "offline")) ]).
Proof.
  destruct (fetch_shortcuts (Out := utf8_stdout) (Svc := offline_service) 50)
    as [_ Hdated].
  destruct (Hdated 30%Z (-30)%Z (py "a@b.c") []) as (_ & Hfrom & _);
    [ discriminate | reflexivity | ].
  rewrite Hfrom. reflexivity.
Defined.

(** X21. [fetch_message_by_id] guards the request: it returns the message
    of the service, or, when the request raises, the empty dictionary
    after printing the fault. It raises only when [sys.stdout] refuses the
    line for the fault, and then the exception of the stream. Parsing the
    empty dictionary gives, without any diagnostic, without a call of the
    converter and whatever the libraries are, the record of defaults:
    [No Subject], [Unknown] and empty strings. *)
Theorem fetch_message_by_id_failure `{Out : Stdout} `{Svc : GmailService}
    `{Ext : Externals} message_id :
  fetch_message_by_id message_id
  = match get_execute message_id with
    | Returns message => (Returns message, [GetExecute message_id])
    | Raises e =>
        match stdout_write
                (py "Error fetching message " ++ message_id ++ py ": "
                 ++ exn_str e) with
        | Returns _ =>
            (Returns empty_message,
             [GetExecute message_id; ErrorFetchingMessage message_id e])
        | Raises e' => (Raises e', [GetExecute message_id])
        end
    end
  /\ (forall html_converter,
        parse_message empty_message html_converter
        = ((Returns default_record, []), html_converter))
  /\ word_count (calculate_metadata default_record) = 0%Z
  /\ estimated_read_time_minutes (calculate_metadata default_record) = 1%Z.
Proof.
  split; [ | repeat split ].
  unfold fetch_message_by_id, io_try_except, io_call, io_bind, io_ret, io_print.
  destruct (get_execute message_id) as [ message | e ]; [ reflexivity | ].
  now destruct (stdout_write _).
Qed.

(** * Encodings without padding *)

Lemma sextet_not_pad v :
  v < 64 -> negb (table_b2a_urlsafe v =? BASE64_PAD) = true.
Proof.
  intros Hv.
  apply (all_below_spec 64 (fun v => negb (table_b2a_urlsafe v =? BASE64_PAD)));
    [ vm_compute; reflexivity | exact Hv ].
Qed.

Lemma a2b_loop_unpadded b :
  Forall (fun x => x < 256) b ->
  forall bin_data,
    a2b_loop (map urlsafe_decode_translation
                (without_padding (urlsafe_b64encode b))) 0 0 0 bin_data
    = match (length b mod 3)%nat with
      | O => Returns (bin_data ++ b)
      | _ => Raises IncorrectPadding
      end.
Proof.
  unfold without_padding.
  induction b as [ | b0 | b0 b1 | b0 b1 b2 rest IH ] using list_ind3;
    intros Hb bin_data.
  - simpl. now rewrite app_nil_r.
  - apply Forall_cons_1 in Hb as [H0 _].
    destruct (octet_pairs b0 0 H0) as (S0 & S1 & _); [ lia | ].
    cbn [urlsafe_b64encode List.filter].
    fold (sextet0 b0).
    replace (N.shiftl (N.land b0 3) 4) with (sextet1 b0 0)
      by (unfold sextet1; change (N.shiftr 0 4) with 0; apply N.lor_0_r).
    rewrite !sextet_not_pad by assumption.
    change (negb (BASE64_PAD =? BASE64_PAD)) with false. cbn [map].
    fold (sextet_char (sextet0 b0)) (sextet_char (sextet1 b0 0)).
    rewrite !a2b_loop_sextet by assumption. reflexivity.
  - apply Forall_cons_1 in Hb as [H0 Hb]. apply Forall_cons_1 in Hb as [H1 _].
    destruct (octet_pairs b0 b1 H0 H1) as (S0 & S1 & _).
    destruct (octet_pairs b1 0 H1) as (_ & _ & S2 & _); [ lia | ].
    cbn [urlsafe_b64encode List.filter].
    fold (sextet0 b0) (sextet1 b0 b1).
    replace (N.shiftl (N.land b1 15) 2) with (sextet2 b1 0)
      by (unfold sextet2; change (N.shiftr 0 6) with 0; apply N.lor_0_r).
    rewrite !sextet_not_pad by assumption.
    change (negb (BASE64_PAD =? BASE64_PAD)) with false. cbn [map].
    fold (sextet_char (sextet0 b0)) (sextet_char (sextet1 b0 b1))
      (sextet_char (sextet2 b1 0)).
    rewrite !a2b_loop_sextet by assumption. reflexivity.
  - apply Forall_cons_1 in Hb as [H0 Hb]. apply Forall_cons_1 in Hb as [H1 Hb].
    apply Forall_cons_1 in Hb as [H2 Hb].
    destruct (octet_pairs b0 b1 H0 H1) as (S0 & S1 & _ & _ & E0 & L1 & _).
    destruct (octet_pairs b1 b2 H1 H2) as (_ & _ & S2 & _ & _ & _ & E1 & L2 & _).
    destruct (octet_pairs b2 0 H2) as (_ & _ & _ & S3 & _ & _ & _ & _ & E2); [ lia | ].
    cbn [urlsafe_b64encode List.filter app].
    fold (sextet0 b0) (sextet1 b0 b1) (sextet2 b1 b2) (sextet3 b2).
    rewrite !sextet_not_pad by assumption. cbn [map].
    fold (sextet_char (sextet0 b0)) (sextet_char (sextet1 b0 b1))
      (sextet_char (sextet2 b1 b2)) (sextet_char (sextet3 b2)).
    rewrite !a2b_loop_sextet by assumption. rewrite E0, L1, E1, L2, E2.
    rewrite IH by assumption. rewrite <- !app_assoc.
    replace (length (b0 :: b1 :: b2 :: rest) mod 3)%nat with (length rest mod 3)%nat;
      [ reflexivity | ].
    cbn [length]. replace (S (S (S (length rest)))) with (length rest + 1 * 3)%nat by lia.
    now rewrite Nat.Div0.mod_add.
Qed.

(** X22. Padding is needed: when the pad characters are taken away from
    the URL-safe base64 of octets whose number is not a multiple of 3,
    [decode_body] does not decode: it returns the empty string and prints
    [Incorrect padding]. (When the number is a multiple of 3 the encoding
    has no padding and is decoded as usual.) *)
Theorem decode_body_needs_padding `{Out : Stdout} b :
  Forall (fun x => x < 256) b ->
  (length b mod 3 <> 0)%nat ->
  decode_body (without_padding (urlsafe_b64encode b))
  = (Returns [], [ErrorDecodingBody IncorrectPadding]).
Proof.
  intros Hb Hlen. apply decode_body_raises.
  unfold urlsafe_b64decode, a2b_base64.
  assert (Hascii : forallb is_ascii (without_padding (urlsafe_b64encode b)) = true).
  { pose proof (urlsafe_b64encode_ascii b Hb) as Ha.
    unfold without_padding. rewrite forallb_forall in Ha |- *.
    intros x Hx. apply List.filter_In in Hx as [Hx _]. now apply Ha. }
  rewrite Hascii, a2b_loop_unpadded by assumption.
  destruct (length b mod 3)%nat; [ now elim Hlen | reflexivity ].
Qed.

Lemma decode_body_needs_padding_witness :
  decode_body (Out := utf8_stdout) (py "aGk")
  = (Returns [], [ErrorDecodingBody IncorrectPadding])
  /\ decode_body (Out := utf8_stdout) (py "aGk=") = (Returns (py "hi"), []).
Proof.
  split; [ | reflexivity ].
  apply (decode_body_needs_padding (Out := utf8_stdout) [104; 105]).
  - repeat constructor.
  - discriminate.
Defined.

(** * URLs that are found *)

Lemma take_while_app p (body rest : pystr) :
  forallb p body = true ->
  match rest with [] => True | c :: _ => p c = false end ->
  take_while p (body ++ rest) = body.
Proof.
  intros Hb Hr. induction body as [ | b body IH ].
  - destruct rest as [ | c rest ]; [ reflexivity | ]. cbn. now rewrite Hr.
  - cbn [forallb] in Hb. apply andb_prop in Hb as [Hb1 Hb2].
    cbn [app take_while]. rewrite Hb1. f_equal. now apply IH.
Qed.

Lemma url_tail_complete body rest :
  body <> [] -> forallb url_char body = true -> gap_ok rest ->
  url_tail (py "://" ++ body ++ rest) = Some (py "://" ++ body).
Proof.
  intros Hne Hb Hr. unfold url_tail.
  change (strip_prefix (py "://") (py "://" ++ body ++ rest))
    with (Some (body ++ rest)).
  cbv beta iota. rewrite take_while_app by assumption.
  destruct body; [ now elim Hne | reflexivity ].
Qed.

Lemma match_url_complete u rest :
  url_shape u -> gap_ok rest -> match_url (u ++ rest) = Some u.
Proof.
  intros (body & [ -> | -> ] & Hne & Hb) Hr.
  - unfold match_url.
    change (strip_prefix (py "http") ((py "http://" ++ body) ++ rest))
      with (Some (py "://" ++ body ++ rest)).
    cbv iota. change (py "://" ++ body ++ rest) with (58 :: (py "//" ++ body ++ rest)).
    change (58 =? 115) with false. cbv iota.
    change (58 :: (py "//" ++ body ++ rest)) with (py "://" ++ body ++ rest).
    now rewrite url_tail_complete.
  - unfold match_url.
    change (strip_prefix (py "http") ((py "https://" ++ body) ++ rest))
      with (Some (115 :: (py "://" ++ body ++ rest))).
    cbv iota. change (115 =? 115) with true. cbv iota.
    now rewrite url_tail_complete.
Qed.

Lemma url_chars_prefix (u : pystr) : forall x w s rest,
  forallb url_char u = true -> url_char w = false ->
  u ++ rest = x ++ w :: s ->
  exists x', x = u ++ x' /\ rest = x' ++ w :: s.
Proof.
  induction u as [ | c u IH ]; intros x w s rest Hu Hw Heq.
  - now exists x.
  - cbn [forallb] in Hu. apply andb_prop in Hu as [Hc Hu].
    destruct x as [ | d x ]; cbn [app] in Heq; injection Heq as -> Heq.
    + congruence.
    + destruct (IH x w s rest Hu Hw Heq) as (x' & -> & ->). now exists x'.
Qed.

(** A character that cannot stand in a URL cuts the search: what a match
    is does not depend on what follows such a character. *)
Lemma match_url_cut x w s :
  url_char w = false -> match_url (x ++ w :: s) = match_url x.
Proof.
  intros Hw.
  destruct (match_url (x ++ w :: s)) as [ u | ] eqn:H1.
  - apply match_url_spec in H1 as (Hshape & rest & Heq & Hgap).
    symmetry in Heq.
    destruct (url_chars_prefix u x w s rest (url_shape_chars u Hshape) Hw Heq)
      as (x' & -> & ->).
    symmetry. apply match_url_complete; [ assumption | ].
    destruct x'; [ exact I | exact Hgap ].
  - destruct (match_url x) as [ u | ] eqn:H2; [ | reflexivity ].
    apply match_url_spec in H2 as (Hshape & rest & -> & Hgap).
    rewrite <- app_assoc in H1.
    rewrite match_url_complete in H1; [ discriminate | assumption | ].
    destruct rest; [ exact Hw | exact Hgap ].
Qed.

Lemma findall_url_cut w s pre : forall skip,
  url_char w = false -> (skip <= length pre)%nat ->
  findall_url skip (pre ++ w :: s) = findall_url skip pre ++ findall_url 0 s.
Proof.
  induction pre as [ | c pre IH ]; intros skip Hw Hskip.
  - cbn [length] in Hskip. replace skip with 0%nat by lia.
    cbn [app findall_url].
    pose proof (match_url_cut [] w s Hw) as Hc. cbn [app] in Hc.
    rewrite Hc. reflexivity.
  - cbn [app findall_url]. destruct skip as [ | k ].
    + change (c :: pre ++ w :: s) with ((c :: pre) ++ w :: s).
      rewrite match_url_cut by assumption.
      destruct (match_url (c :: pre)) as [ u | ] eqn:Hm.
      * cbn [app]. f_equal. apply IH; [ assumption | ].
        apply match_url_spec in Hm as (Hshape & rest & Heq & _).
        apply (f_equal (@length N)) in Heq. rewrite length_app in Heq.
        cbn [length] in Heq. lia.
      * apply IH; [ assumption | lia ].
    + apply IH; [ assumption | cbn [length] in Hskip; lia ].
Qed.

Lemma findall_url_skipped (s : pystr) : forall skip,
  (length s <= skip)%nat -> findall_url skip s = [].
Proof.
  induction s as [ | c s IH ]; intros skip Hs; [ reflexivity | ].
  cbn [length] in Hs. destruct skip as [ | k ]; [ lia | ].
  cbn [findall_url]. apply IH. lia.
Qed.

(** X23. A URL between characters that cannot stand in a URL (white space,
    quotes, brackets, or the ends of other text) is always found, and the
    text before and after it is searched on its own: the URLs of the whole
    are those of the text before, the URL, and those of the text after. *)
Theorem extract_urls_finds before w1 url w2 after :
  url_char w1 = false -> url_char w2 = false ->
  (exists body,
     (url = py "http://" ++ body \/ url = py "https://" ++ body)
     /\ body <> [] /\ forallb url_char body = true) ->
  extract_urls (before ++ w1 :: url ++ w2 :: after)
  = extract_urls before ++ url :: extract_urls after.
Proof.
  intros H1 H2 Hshape. unfold extract_urls.
  rewrite findall_url_cut by (assumption || lia). f_equal.
  rewrite findall_url_cut by (assumption || lia).
  pose proof (url_shape_length url Hshape) as Hlen.
  destruct url as [ | c u ]; [ simpl in Hlen; lia | ].
  cbn [findall_url].
  rewrite <- (app_nil_r (c :: u)) at 1.
  rewrite match_url_complete by (assumption || exact I).
  rewrite findall_url_skipped by (simpl; lia). reflexivity.
Qed.

Lemma extract_urls_finds_witness :
  extract_urls (py "Visit http://test.com for more info") = [ py "http://test.com" ].
Proof.
  apply (extract_urls_finds (py "Visit") 32 (py "http://test.com") 32 (py "for more info")).
  - reflexivity.
  - reflexivity.
  - exists (py "test.com"). split; [ now left | ]. split; [ discriminate | reflexivity ].
Defined.
